(** * A shallow embedding of [main.py] of the FR violation screener backend

    Text.  Python [str] values are modelled by their UTF-8 encoding, as a
    Rocq [string] (a sequence of bytes).  Every operation of the source used
    on text ([in], [str.split], concatenation, f-strings, [str.strip] and
    the regular expressions of [normalize_analysis_text], whose literals are
    all ASCII) is written out on bytes; for well-formed UTF-8 this coincides
    with the code-point semantics of CPython (ASCII bytes never occur inside
    a multi-byte sequence).  Where CPython's semantics needs more than ASCII
    (the case-insensitive letters of [re.I], the Unicode whitespace of
    [str.strip] and [\s]) the multi-byte sequences are listed explicitly. *)

From Stdlib Require Import String Ascii List Bool Arith Lia ZArith QArith.
From Stdlib Require Import Sorted Permutation.
Import ListNotations.

Local Open Scope nat_scope.
Local Open Scope string_scope.

(** ** Bytes and byte strings *)

Definition ceq (a b : ascii) : bool := Ascii.eqb a b.

Definition chr (n : nat) : string := String (ascii_of_nat n) EmptyString.

Fixpoint bytes (l : list nat) : string :=
  match l with
  | [] => EmptyString
  | b :: l' => String (ascii_of_nat b) (bytes l')
  end.

(** ["\n"], a backslash and a double quote. *)
Definition nl : string := chr 10.
Definition bsl : string := chr 92.
Definition dq : string := chr 34.

Fixpoint sdrop (n : nat) (s : string) : string :=
  match n, s with
  | O, _ => s
  | S n', String _ s' => sdrop n' s'
  | S _, EmptyString => EmptyString
  end.

Fixpoint rev_str (s : string) : string :=
  match s with
  | EmptyString => EmptyString
  | String c s' => rev_str s' ++ String c EmptyString
  end.

(** Python's [p in s]: [p] occurs in [s] at some position (also at the end,
    for the empty [p]). *)
Fixpoint contains (p s : string) : bool :=
  prefix p s || match s with
                | EmptyString => false
                | String _ s' => contains p s'
                end.

(** Try a matcher at every position, left to right (as [re.search]). *)
Fixpoint search_from (f : string -> bool) (s : string) : bool :=
  f s || match s with
         | EmptyString => false
         | String _ s' => search_from f s'
         end.

(** ** Case-insensitive matching of [re.I]

    Under [re.IGNORECASE] CPython matches a pattern letter [p] against a
    character [x] when the simple lowercase of [x] is [p] (or, for [i] and
    [s], its listed equivalent dotless i / long s).  For the ASCII letters
    these are the upper and lower case letter and, for [i], [s] and [k],
    U+0130, U+0131, U+017F and U+212A, given here in UTF-8. *)

Definition to_upper (c : ascii) : ascii :=
  let n := nat_of_ascii c in
  if Nat.leb 97 n && Nat.leb n 122 then ascii_of_nat (n - 32)%nat else c.

Definition ci_units (p : ascii) : list string :=
  app [String p EmptyString; String (to_upper p) EmptyString]
  (if ceq p "i"%char then [bytes [196; 176]; bytes [196; 177]]
   else if ceq p "s"%char then [bytes [197; 191]]
   else if ceq p "k"%char then [bytes [226; 132; 170]]
   else []).

Fixpoint first_unit (us : list string) (s : string) : option string :=
  match us with
  | [] => None
  | u :: us' => if prefix u s then Some (sdrop (String.length u) s) else first_unit us' s
  end.

(** [ci_prefix pat s]: the lowercase ASCII pattern [pat] matches a prefix of
    [s] case-insensitively; returns what follows the match. *)
Fixpoint ci_prefix (pat s : string) : option string :=
  match pat with
  | EmptyString => Some s
  | String p pat' =>
      match first_unit (ci_units p) s with
      | Some r => ci_prefix pat' r
      | None => None
      end
  end.

(** ** Whitespace ([str.isspace], and [\s] of [re]) in UTF-8 *)

Definition ws_units : list string :=
  map bytes
    [[9]; [10]; [11]; [12]; [13]; [28]; [29]; [30]; [31]; [32];
     [194; 133]; [194; 160]; [225; 154; 128];
     [226; 128; 128]; [226; 128; 129]; [226; 128; 130]; [226; 128; 131];
     [226; 128; 132]; [226; 128; 133]; [226; 128; 134]; [226; 128; 135];
     [226; 128; 136]; [226; 128; 137]; [226; 128; 138]; [226; 128; 168];
     [226; 128; 169]; [226; 128; 175]; [226; 129; 159]; [227; 128; 128]].

Fixpoint lstrip_go (us : list string) (fuel : nat) (s : string) : string :=
  match fuel with
  | O => s
  | S f => match first_unit us s with
           | Some r => lstrip_go us f r
           | None => s
           end
  end.

(** [str.strip()]: whitespace removed at both ends; the right end is
    stripped on the reversed bytes with the reversed encodings. *)
Definition strip (s : string) : string :=
  let l := lstrip_go ws_units (String.length s) s in
  rev_str (lstrip_go (map rev_str ws_units) (String.length l) (rev_str l)).

(** ** [normalize_analysis_text] (main.py, lines 181-213)

    The patterns are raw strings with doubled backslashes, so in the regex
    [\\] is a literal backslash: [r"Violation Status:\\s*No\\b"] matches
    "Violation Status:", a backslash, any number of [s], "No", a backslash
    and [b] (all under [re.I]).  Each pattern is written out below as it is
    read by [re]. *)

Definition STATUS_HDR : string := "violation status:".

(** [re.I] run of [s*]: letters [s], [S] or U+017F.  The next pattern
    character is [N], never in the run, so greedy matching is exact. *)
Fixpoint skip_s_ci (s : string) : string :=
  match s with
  | EmptyString => EmptyString
  | String c s' =>
      if ceq c "s"%char || ceq c "S"%char then skip_s_ci s'
      else match s' with
           | String d s'' =>
               if ceq c (ascii_of_nat 197) && ceq d (ascii_of_nat 191)
               then skip_s_ci s'' else s
           | EmptyString => s
           end
  end.

(** [r"Violation Status:\\s*No\\b"] with [re.I], anchored at [s]. *)
Definition status_no_at (s : string) : bool :=
  match ci_prefix (STATUS_HDR ++ bsl) s with
  | Some r => match ci_prefix ("no" ++ bsl ++ "b") (skip_s_ci r) with
              | Some _ => true
              | None => false
              end
  | None => false
  end.

(** The text from the first ["\n"] on (what [.*] leaves over). *)
Fixpoint from_newline (s : string) : string :=
  match s with
  | EmptyString => EmptyString
  | String c s' => if ceq c (ascii_of_nat 10) then s else from_newline s'
  end.

(** [re.sub(r"(?i)Violation Status:.*", "Violation Status: No", text, count=1)]. *)
Fixpoint sub_status_line (s : string) : string :=
  match ci_prefix STATUS_HDR s with
  | Some r => "Violation Status: No" ++ from_newline r
  | None => match s with
            | EmptyString => EmptyString
            | String c s' => String c (sub_status_line s')
            end
  end.

(** [r"(?s)Explanation:\\s*.*?(?=\\n\\nWhat the person can do next:|\\Z)"]:
    "Explanation:", a backslash, [s*] (case-sensitive), then the shortest
    stretch followed by either a backslash, [n], a backslash, [n] and
    "What the person can do next:", or by a backslash and [Z].  Both
    look-ahead alternatives start with a backslash, so backtracking into
    [s*] never yields a new end; the end is the first position after the
    [s] run where a look-ahead alternative holds. *)
Definition EXPL_HDR : string := "Explanation:".
Definition NEXT_HDR : string := "What the person can do next:".
Definition LOOK1 : string := bsl ++ "n" ++ bsl ++ "n" ++ NEXT_HDR.
Definition LOOK2 : string := bsl ++ "Z".

Fixpoint skip_s (s : string) : string :=
  match s with
  | String c s' => if ceq c "s"%char then skip_s s' else s
  | EmptyString => EmptyString
  end.

Fixpoint find_look (s : string) : option string :=
  if prefix LOOK1 s || prefix LOOK2 s then Some s
  else match s with
       | EmptyString => None
       | String _ s' => find_look s'
       end.

(** The match anchored at [s]: [Some rest] where [rest] follows the match. *)
Definition expl_match (s : string) : option string :=
  if prefix (EXPL_HDR ++ bsl) s
  then find_look (skip_s (sdrop (String.length (EXPL_HDR ++ bsl)) s))
  else None.

Definition expl_found (s : string) : bool :=
  match expl_match s with Some _ => true | None => false end.

(** The replacement ["Explanation:\nNo fundamental rights violation detected."]
    (a real newline, no escape for [re.sub] to process). *)
Definition EXPL_REPL : string :=
  EXPL_HDR ++ nl ++ "No fundamental rights violation detected.".

(** [re.sub] with no count: every non-overlapping match, left to right.  A
    match is never empty, so [String.length s + 1] steps always suffice. *)
Fixpoint sub_expl_go (fuel : nat) (s : string) : string :=
  match fuel with
  | O => s
  | S f =>
      match expl_match s with
      | Some rest => EXPL_REPL ++ sub_expl_go f rest
      | None => match s with
                | EmptyString => EmptyString
                | String c s' => String c (sub_expl_go f s')
                end
      end
  end.

Definition sub_expl (s : string) : string := sub_expl_go (S (String.length s)) s.

(** [r"(?s)What the person can do next:\\s*.*"]: the header, a backslash,
    and then everything up to the end of the text. *)
Definition NEXT_PAT : string := NEXT_HDR ++ bsl.

(** The replacement ["What the person can do next:\\nNo ..."]: [re.sub]
    turns the escape [\n] of the template into a newline. *)
Definition NEXT_REPL : string :=
  NEXT_HDR ++ nl ++ "No fundamental rights violation detected; no immediate action required.".

Fixpoint sub_next (s : string) : string :=
  if prefix NEXT_PAT s then NEXT_REPL
  else match s with
       | EmptyString => EmptyString
       | String c s' => String c (sub_next s')
       end.

(** The two appended tails, plain (non-raw) Python strings: ["\\n"] is a
    backslash and [n], ["\n"] a newline. *)
Definition EXPL_TAIL : string :=
  bsl ++ "n" ++ bsl ++ "n" ++ EXPL_HDR ++ nl ++ "No fundamental rights violation detected.".

Definition NEXT_TAIL : string :=
  bsl ++ "n" ++ bsl ++ "n" ++ NEXT_HDR ++ bsl ++ "n" ++
  "No fundamental rights violation detected; no immediate action required.".

(** The function itself; [text is None] cannot arise, the callers pass the
    [str] read from the model reply. *)
Definition normalize_analysis_text (text : string) : string :=
  if search_from status_no_at text then
    let text := sub_status_line text in
    let text := if search_from expl_found text then sub_expl text
                else strip text ++ EXPL_TAIL in
    let text := if contains NEXT_PAT text then sub_next text
                else strip text ++ NEXT_TAIL in
    text
  else text.

(** ** [str.split(sep)] for a non-empty separator

    CPython scans left to right; at each occurrence of [sep] the current
    piece ends and scanning resumes after the separator.  [k] counts the
    bytes of a separator still to skip, [cur] holds the current piece
    reversed. *)
Fixpoint split_go (sep s : string) (k : nat) (cur : string) : list string :=
  match s with
  | EmptyString => [rev_str cur]
  | String c s' =>
      match k with
      | S k' => split_go sep s' k' cur
      | O => if prefix sep s
             then rev_str cur :: split_go sep s' (String.length sep - 1) EmptyString
             else split_go sep s' 0 (String c cur)
      end
  end.

Definition py_split (sep s : string) : list string := split_go sep s 0 EmptyString.

(** [xs[i]] where the code has checked beforehand that it exists. *)
Definition idx (xs : list string) (i : nat) : string := nth i xs EmptyString.

(** ** The parser of [screen_scenario] (main.py, lines 250-296) *)

Definition VS : string := "Violation Status:".
Definition VA_HDR : string := "Violated Article(s):".

(** [has_violation = "Violation Status:" in analysis_text and
     "Yes" in analysis_text.split("Violation Status:")[1].split("\n")[0]] *)
Definition has_violation (analysis_text : string) : bool :=
  contains VS analysis_text &&
  contains "Yes" (idx (py_split nl (idx (py_split VS analysis_text) 1)) 0).

Record StructuredViolation := {
  status : string;
  article : string;
  explanation : string;
  guidance : string;
  confidence : Q
}.

Record Summary := {
  total_violations : nat;
  risk_level : string;
  recommendations : list string
}.

Record ScreenResponse := {
  violations : list StructuredViolation;
  summary : Summary;
  raw_analysis : string
}.

(** The float literal [0.95] of both branches. *)
Definition CONFIDENCE : Q := (95 # 100)%Q.

Definition articles_section (t : string) : string :=
  if contains VA_HDR t
  then strip (idx (py_split EXPL_HDR (idx (py_split VA_HDR t) 1)) 0)
  else EmptyString.

Definition explanation_section (t : string) : string :=
  if contains EXPL_HDR t
  then strip (idx (py_split NEXT_HDR (idx (py_split EXPL_HDR t) 1)) 0)
  else EmptyString.

Definition guidance_section (t : string) : string :=
  if contains NEXT_HDR t then strip (idx (py_split NEXT_HDR t) 1) else EmptyString.

Definition no_violation_record : StructuredViolation := {|
  status := "No Violation";
  article := "N/A";
  explanation := "No fundamental rights violation detected in this scenario.";
  guidance := "No immediate action required.";
  confidence := CONFIDENCE
|}.

Definition parse_violations (analysis_text : string) : list StructuredViolation :=
  if has_violation analysis_text then
    [{| status := "Violation Detected";
        article := articles_section analysis_text;
        explanation := explanation_section analysis_text;
        guidance := guidance_section analysis_text;
        confidence := CONFIDENCE |}]
  else [no_violation_record].

(** Everything [screen_scenario] does after the reply has been normalized. *)
Definition screen_parse (analysis_text : string) : ScreenResponse :=
  let has := has_violation analysis_text in
  let vs := parse_violations analysis_text in
  {| violations := vs;
     summary := {|
       total_violations :=
         List.length (filter (fun v => String.eqb (status v) "Violation Detected") vs);
       risk_level := if has then "High" else "Low";
       recommendations :=
         [if has then "Consult with a legal advisor for detailed guidance"
          else "Continue monitoring the situation"] |};
     raw_analysis := analysis_text |}.

(** ** The outside world

    The corpus file, the sentence encoder and the Gemini client are inputs
    of the model.  Embedding coordinates are integers and distances are
    computed exactly (the float32 rounding of FAISS is not modelled).
    [instantiate n] is [genai.GenerativeModel(n)]: [None] when it returns,
    [Some msg] when it raises; it is a function, so the provider answers
    the same way for the same name during one initialization. *)

(** A corpus record; [art_summary] and [art_text] are the optional keys
    ['summary'] and ['text'] read with [.get(key, '')]. *)
Record Article := {
  article_id : string;
  art_summary : option string;
  art_text : option string
}.

Definition get_or_empty (o : option string) : string :=
  match o with Some s => s | None => EmptyString end.

(** A capability value of a listed model: [None], a list (or tuple) of
    labels, or a single label. *)
Inductive Caps := CapNone | CapList (labels : list string) | CapOne (label : string).

(** A listed model (a dict or an object): its [name] and its
    [supported_generation_methods] and [supportedMethods] values. *)
Record ModelEntry := {
  m_name : option string;
  m_sgm : Caps;
  m_sm : Caps
}.

(** What [genai.list_models()] gives: it raises, a list, a dict whose
    ["models"] entry is a list ([LDict (Some ms)]) or is missing or not a
    list ([LDict None]), or another iterable such as a generator. *)
Inductive Listing :=
| LRaise (msg : string)
| LList (ms : list ModelEntry)
| LDict (models : option (list ModelEntry))
| LIter (ms : list ModelEntry).

(** [response = gemini.generate_content(prompt)] followed by
    [getattr(response, "text", str(response))]: the text, or the message
    [str(e)] of the exception raised on the way. *)
Inductive GenResult := GenText (t : string) | GenError (msg : string).

(** [corpus_error] is the exception of opening and parsing the corpus file
    (lines 48-49), [encoder_error] that of loading the sentence encoder
    (line 52); [corpus] is the parsed file, a list of records that all
    carry an ["article_id"]. *)
Record Env := {
  corpus_error : option string;
  corpus : list Article;
  encoder_error : option string;
  encode : string -> list Z;
  instantiate : string -> option string;
  list_models : Listing;
  generate : string -> string -> GenResult
}.

(** The module-level holders [embed_model] (only whether it is set),
    [index] ([None] until set; then the stored vectors, row [i] for
    article [i]), [articles] and [gemini] (the bound model name). *)
Record Globals := {
  embed_model : bool;
  index : option (list (list Z));
  articles : list Article;
  gemini : option string
}.

Definition globals0 : Globals :=
  {| embed_model := false; index := None; articles := []; gemini := None |}.

(** ** [init_ai] (main.py, lines 39-128) *)

Definition embed_text (a : Article) : string :=
  article_id a ++ " - " ++ get_or_empty (art_summary a) ++ " - " ++ get_or_empty (art_text a).

Definition preferred : list string :=
  ["models/gemini-2.5-flash"; "models/gemini-1.5-flash";
   "models/gemini-1.5-pro"; "models/gemini-pro"].

Definition NO_MODEL_MSG : string :=
  "No suitable generative model available. Run ListModels to see options.".

Fixpoint first_instantiable (inst : string -> option string) (ps : list string)
  : option string :=
  match ps with
  | [] => None
  | p :: ps' => match inst p with
                | None => Some p
                | Some _ => first_instantiable inst ps'
                end
  end.

(** Python truthiness of a capability value (for [a or b]). *)
Definition caps_truthy (c : Caps) : bool :=
  match c with
  | CapNone => false
  | CapList l => match l with [] => false | _ => true end
  | CapOne s => negb (String.eqb s EmptyString)
  end.

Definition supported (m : ModelEntry) : Caps :=
  if caps_truthy (m_sgm m) then m_sgm m else m_sm m.

Definition to_lower (c : ascii) : ascii :=
  let n := nat_of_ascii c in
  if Nat.leb 65 n && Nat.leb n 90 then ascii_of_nat (n + 32) else c.

(** [str.lower()]; only ASCII letters are lowered.  No other character
    lowers to a letter of "generate", "content", "text" or "chat", so the
    tests below are exact. *)
Fixpoint lower (s : string) : string :=
  match s with
  | EmptyString => EmptyString
  | String c s' => String (to_lower c) (lower s')
  end.

Definition label_ok (item : string) : bool :=
  let l := lower item in
  contains "generate" l || contains "content" l || contains "text" l || contains "chat" l.

Definition supports_generate (m : ModelEntry) : bool :=
  match supported m with
  | CapNone => false
  | CapList l => existsb label_ok l
  | CapOne s => label_ok s
  end.

(** [if name and supports_generate: available.append((name, m))] *)
Definition available (ms : list ModelEntry) : list string :=
  flat_map (fun m => match m_name m with
                     | Some n => if negb (String.eqb n EmptyString) && supports_generate m
                                 then [n] else []
                     | None => []
                     end) ms.

(** [isinstance(models_list, list)]: only a list, or the list under the
    ["models"] key of a dict, is iterated. *)
Definition listed (l : Listing) : list ModelEntry :=
  match l with
  | LList ms => ms
  | LDict (Some ms) => ms
  | _ => []
  end.

(** The ListModels fallback (lines 84-120); an exception of [list_models]
    is caught and leaves [model_name] at [None]. *)
Definition fallback (l : Listing) : option string :=
  match l with
  | LRaise _ => None
  | _ => match available (listed l) with
         | [] => None
         | (n0 :: _) as av =>
             match find (fun p => existsb (String.eqb p) av) preferred with
             | Some p => Some p
             | None => Some n0
             end
         end
  end.

Definition model_name (env : Env) : option string :=
  match first_instantiable (instantiate env) preferred with
  | Some p => Some p
  | None => fallback (list_models env)
  end.

(** Lines 122-125: raise when no name was found, then bind the name (which
    raises again if it does not instantiate).  [inl] is the message of the
    exception, [inr] the bound model. *)
Definition bind_model (env : Env) : string + string :=
  match model_name env with
  | None => inl NO_MODEL_MSG
  | Some n => match instantiate env n with
              | None => inr n
              | Some e => inl e
              end
  end.

(** [embeddings.shape[1]] on the encoding of an empty corpus: the array
    has shape [(0,)]. *)
Definition TUPLE_INDEX_ERROR : string := "tuple index out of range".

(** [init_ai], in the order of the source.  A corpus file that cannot be
    read raises before anything is assigned; an encoder that cannot be
    loaded raises after [articles] is assigned but before [embed_model]
    is, so the next call starts again.  From line 52 on [embed_model] is
    set, so a later failure (an empty corpus at line 59, or no usable
    model) is final: later calls return at once.  The first component is
    the exception raised. *)
Definition init_ai (env : Env) (g : Globals) : option string * Globals :=
  if embed_model g then (None, g)
  else
    match corpus_error env with
    | Some e => (Some e, g)
    | None =>
        match encoder_error env with
        | Some e => (Some e, {| embed_model := false; index := index g;
                                articles := corpus env; gemini := gemini g |})
        | None =>
            match corpus env with
            | [] => (Some TUPLE_INDEX_ERROR,
                     {| embed_model := true; index := index g;
                        articles := corpus env; gemini := gemini g |})
            | _ :: _ =>
                let g1 := {| embed_model := true;
                             index := Some (map (encode env) (map embed_text (corpus env)));
                             articles := corpus env;
                             gemini := gemini g |} in
                match bind_model env with
                | inl e => (Some e, g1)
                | inr n => (None, {| embed_model := true; index := index g1;
                                     articles := articles g1; gemini := Some n |})
                end
            end
        end
    end.

(** ** [faiss.IndexFlatL2.search] and [search_relevant_articles] *)

Fixpoint sqdist (u v : list Z) : Z :=
  match u, v with
  | x :: u', y :: v' => ((x - y) * (x - y) + sqdist u' v')%Z
  | _, _ => 0%Z
  end.

(** FAISS orders results by distance, equal distances by row id. *)
Definition rank_le (d : nat -> Z) (i j : nat) : bool :=
  Z.ltb (d i) (d j) || (Z.eqb (d i) (d j) && Nat.leb i j).

Fixpoint insert_by (d : nat -> Z) (i : nat) (l : list nat) : list nat :=
  match l with
  | [] => [i]
  | j :: l' => if rank_le d i j then i :: l else j :: insert_by d i l'
  end.

Fixpoint sort_by (d : nat -> Z) (l : list nat) : list nat :=
  match l with
  | [] => []
  | i :: l' => insert_by d i (sort_by d l')
  end.

(** The labels of the [k] nearest rows of one query; FAISS rejects [k = 0]
    and pads the result with label [-1] when the index holds fewer than
    [k] vectors. *)
Definition faiss_search (db : list (list Z)) (q : list Z) (k : nat) : option (list Z) :=
  match k with
  | O => None
  | S _ =>
      let d i := sqdist q (nth i db []) in
      Some (map Z.of_nat (firstn k (sort_by d (seq 0 (List.length db))))
            ++ repeat (-1)%Z (k - List.length db))%list
  end.

(** Python's [xs[i]], negative [i] counting from the end; [None] is the
    [IndexError]. *)
Definition py_index {A : Type} (xs : list A) (i : Z) : option A :=
  if Z.leb 0 i then nth_error xs (Z.to_nat i)
  else if Z.leb 0 (Z.of_nat (List.length xs) + i)
       then nth_error xs (Z.to_nat (Z.of_nat (List.length xs) + i))
       else None.

Fixpoint map_opt {A B : Type} (f : A -> option B) (l : list A) : option (list B) :=
  match l with
  | [] => Some []
  | x :: l' => match f x, map_opt f l' with
               | Some y, Some ys => Some (y :: ys)
               | _, _ => None
               end
  end.

(** [index.search(...)] and [[articles[i] for i in indices[0]]]; [None]
    is an exception (see [retrieval_error]). *)
Definition search_relevant_articles (env : Env) (g : Globals) (user_input : string)
  (top_k : nat) : option (list Article) :=
  match index g with
  | None => None
  | Some db =>
      match faiss_search db (encode env user_input) top_k with
      | Some labels => map_opt (py_index (articles g)) labels
      | None => None
      end
  end.

(** ** [build_prompt] (main.py, lines 137-178) *)

Fixpoint unlines (ls : list string) : string :=
  match ls with
  | [] => EmptyString
  | l :: ls' => l ++ nl ++ unlines ls'
  end.

(** The en dash U+2013 of the template. *)
Definition ENDASH : string := bytes [226; 128; 147].

Definition article_block (art : Article) : string :=
  nl ++ "Article: " ++ article_id art ++
  nl ++ "Summary: " ++ get_or_empty (art_summary art) ++
  nl ++ "Full Text: " ++ get_or_empty (art_text art) ++
  nl ++ "---" ++ nl.

(** [article_text += ...] over the matched articles, in order. *)
Fixpoint article_text_of (acc : string) (arts : list Article) : string :=
  match arts with
  | [] => acc
  | art :: arts' => article_text_of (acc ++ article_block art) arts'
  end.

Definition PROMPT_HEAD : string :=
  nl ++ unlines ["You are a legal assistant specialized in Sri Lankan Fundamental Rights.";
                 ""; "USER SCENARIO:"] ++ dq.

Definition PROMPT_MID : string :=
  dq ++ nl ++ unlines [""; "RELEVANT CONSTITUTION ARTICLES:"].

Definition PROMPT_TAIL : string :=
  nl ++ unlines
    [""; "TASK:";
     "- Decide whether this is a Fundamental Rights violation or not.";
     "- If YES, state the violated Article(s) using the format: ARTICLE <number> "
       ++ ENDASH ++ " <short summary title>.";
     "- Provide a short plain-language Explanation (1-3 short paragraphs).";
     "- Provide " ++ dq ++ "What the person can do next:" ++ dq
       ++ " with practical steps and mention Article 17 remedy if applicable.";
     "";
     "RESPONSE FORMAT (STRICT):";
     "Produce ONLY plain text (no markdown, no bold, no lists characters like '*', no HTML). Use the exact headings below followed by content.";
     "";
     "Violation Status: Yes or No";
     "";
     "Violated Article(s):";
     "ARTICLE <number> " ++ ENDASH ++ " <short summary title>";
     "";
     "Explanation:";
     "<one or two short paragraphs explaining why this situation does or does not violate the Article>";
     "";
     "What the person can do next:";
     "<practical next steps; mention Article 17 remedy if applicable and simple evidence-collection suggestions>";
     "";
     "Keep language simple and concise, suitable for ordinary citizens. Do not include extra sections or commentary."].

Definition build_prompt (user_scenario : string) (matched_articles : list Article) : string :=
  let article_text := article_text_of EmptyString matched_articles in
  PROMPT_HEAD ++ user_scenario ++ PROMPT_MID ++ article_text ++ PROMPT_TAIL.

(** ** The endpoints (main.py, lines 216-296)

    An endpoint returns its outcome, the prompts sent to the model (in
    order) and the holders afterwards.  [Raised] is an exception that
    escapes the handler (FastAPI answers 500 without the message);
    [HttpError] is the [HTTPException] raised by the handler. *)

Inductive Outcome (A : Type) :=
| Ok (a : A)
| HttpError (code : Z) (detail : string)
| Raised (msg : string).

Arguments Ok {A} a.
Arguments HttpError {A} code detail.
Arguments Raised {A} msg.

(** [gemini.generate_content(prompt)] with [gemini] possibly still [None]. *)
Definition call_gemini (env : Env) (g : Globals) (prompt : string) : GenResult :=
  match gemini g with
  | Some n => generate env n prompt
  | None => GenError "'NoneType' object has no attribute 'generate_content'"
  end.

Definition INDEX_ERROR : string := "list index out of range".

(** The exception of a failed retrieval: [index] still [None] (after an
    initialization that failed at line 59), or an article index out of
    range.  The endpoints pass [k = 3] and [k = 5], never the [k = 0]
    FAISS rejects. *)
Definition retrieval_error (g : Globals) : string :=
  match index g with
  | None => "'NoneType' object has no attribute 'search'"
  | Some _ => INDEX_ERROR
  end.

Definition analyze (env : Env) (g : Globals) (scenario : string)
  : Outcome string * list string * Globals :=
  let (err, g1) := init_ai env g in
  match err with
  | Some e => (Raised e, [], g1)
  | None =>
      match search_relevant_articles env g1 scenario 3 with
      | None => (Raised (retrieval_error g1), [], g1)
      | Some matched_articles =>
          let prompt := build_prompt scenario matched_articles in
          match call_gemini env g1 prompt with
          | GenError m => (HttpError 500%Z m, [prompt], g1)
          | GenText analysis_text => (Ok analysis_text, [prompt], g1)
          end
      end
  end.

Definition screen_scenario (env : Env) (g : Globals) (scenario : string)
  : Outcome ScreenResponse * list string * Globals :=
  let (err, g1) := init_ai env g in
  match err with
  | Some e => (Raised e, [], g1)
  | None =>
      match search_relevant_articles env g1 scenario 5 with
      | None => (Raised (retrieval_error g1), [], g1)
      | Some matched_articles =>
          let prompt := build_prompt scenario matched_articles in
          match call_gemini env g1 prompt with
          | GenError m => (HttpError 500%Z m, [prompt], g1)
          | GenText t =>
              let analysis_text := normalize_analysis_text t in
              (Ok (screen_parse analysis_text), [prompt], g1)
          end
      end
  end.

(** ** Specification-side readings

    The following definitions follow the words of the specification, to be
    compared with the code above. *)

(** The text after the first occurrence of [sep], if [sep] occurs. *)
Fixpoint after_first (sep s : string) : option string :=
  if prefix sep s then Some (sdrop (String.length sep) s)
  else match s with
       | EmptyString => None
       | String _ s' => after_first sep s'
       end.

(** The text before the first occurrence of [sep] (all of [s] if none). *)
Fixpoint before_first (sep s : string) : string :=
  if prefix sep s then EmptyString
  else match s with
       | EmptyString => EmptyString
       | String c s' => String c (before_first sep s')
       end.

(** The pattern the specification names, [Violation Status:\s*No] under
    [re.I]; [\s] is the Unicode whitespace of [str.isspace]. *)
Definition spec_status_no_at (s : string) : bool :=
  match ci_prefix STATUS_HDR s with
  | Some r => match ci_prefix "no" (lstrip_go ws_units (String.length r) r) with
              | Some _ => true
              | None => false
              end
  | None => false
  end.

Definition spec_status_no (s : string) : bool := search_from spec_status_no_at s.

(** All pieces, in order, with nothing between them. *)
Fixpoint cat_all (l : list string) : string :=
  match l with
  | [] => EmptyString
  | x :: l' => x ++ cat_all l'
  end.

(** ** Concrete inputs *)

(** A reply in the layout the prompt asks for, with status "No". *)
Definition reply_plain_no : string :=
  unlines ["Violation Status: No"; ""; "Explanation:";
           "Paying a bill on time is lawful."; "";
           "What the person can do next:"; "Keep the payment receipt."].

(** A status line with a backslash after the colon. *)
Definition reply_backslash_no : string :=
  "Violation Status:" ++ bsl ++ "No" ++ bsl ++ "b".

Definition reply_yes : string :=
  unlines ["Violation Status: Yes"; ""; "Violated Article(s):";
           "ARTICLE 13 " ++ ENDASH ++ " Freedom from arbitrary arrest"; "";
           "Explanation:"; "The journalist was held without a warrant."; "";
           "What the person can do next:"; "File a petition under Article 17."].

(** A reply that repeats the next-steps header. *)
Definition reply_repeated_guidance : string :=
  reply_yes ++ nl ++ NEXT_HDR ++ nl ++ "Contact the Human Rights Commission.".

(** A reply with none of the expected headers. *)
Definition reply_no_headers : string := "The scenario seems lawful.".

Definition art10 : Article :=
  {| article_id := "Article 10"; art_summary := Some "Freedom of thought";
     art_text := Some "Every person is entitled to freedom of thought." |}.

Definition art13 : Article :=
  {| article_id := "Article 13"; art_summary := Some "Freedom from arbitrary arrest";
     art_text := None |}.

Definition art14 : Article :=
  {| article_id := "Article 14"; art_summary := None;
     art_text := Some "Every citizen is entitled to freedom of speech." |}.

(** A one-dimensional toy encoder: the length of the text. *)
Definition len_encoder (s : string) : list Z := [Z.of_nat (String.length s)].

Definition demo_env (arts : list Article) (reply : string) : Env :=
  {| corpus_error := None; corpus := arts; encoder_error := None;
     encode := len_encoder; instantiate := fun _ => None;
     list_models := LList []; generate := fun _ _ => GenText reply |}.

Definition demo_scenario : string :=
  "Police detained a journalist without a warrant for 48 hours".

(** A provider on which every model name fails to instantiate but whose
    listing offers a preferred model with [generateContent]. *)
Definition env_listing_preferred : Env :=
  {| corpus_error := None; corpus := [art13]; encoder_error := None;
     encode := len_encoder;
     instantiate := fun n => Some ("404 " ++ n ++ " is not found");
     list_models :=
       LList [{| m_name := Some "models/gemini-pro";
                 m_sgm := CapList ["generateContent"; "countTokens"];
                 m_sm := CapNone |}];
     generate := fun _ _ => GenText EmptyString |}.

(** A provider on which only a non-preferred listed model instantiates; its
    listing also has a capable model with an empty name. *)
Definition env_listing_other : Env :=
  {| corpus_error := None; corpus := [art13]; encoder_error := None;
     encode := len_encoder;
     instantiate := fun n => if String.eqb n "models/gemini-2.0-flash" then None
                             else Some "404 not found";
     list_models :=
       LList [{| m_name := Some EmptyString;
                 m_sgm := CapList ["generateContent"]; m_sm := CapNone |};
              {| m_name := Some "models/gemini-2.0-flash";
                 m_sgm := CapNone; m_sm := CapOne "GenerateContent" |}];
     generate := fun _ _ => GenText EmptyString |}.

(** An environment on which loading the encoder fails (no network to
    fetch the weights). *)
Definition env_encoder_down : Env :=
  {| corpus_error := None; corpus := [art13]; encoder_error := Some "Connection error.";
     encode := len_encoder; instantiate := fun _ => None;
     list_models := LList []; generate := fun _ _ => GenText EmptyString |}.

(** The selection policy as worded by the specification: the first
    preferred identifier that instantiates, else among the listed models
    (of whatever listing) those whose labels name a capability, a preferred
    one if any, else the first. *)
Definition claimed_selection (env : Env) : option string :=
  match first_instantiable (instantiate env) preferred with
  | Some p => Some p
  | None =>
      let ms := match list_models env with
                | LRaise _ => []
                | LList ms | LIter ms => ms
                | LDict (Some ms) => ms
                | LDict None => []
                end in
      let kept := flat_map (fun m => match m_name m with
                                     | Some n => if supports_generate m then [n] else []
                                     | None => []
                                     end) ms in
      match find (fun p => existsb (String.eqb p) kept) preferred with
      | Some p => Some p
      | None => hd_error kept
      end
  end.

(** Retrieval as the specification words it: distinct corpus rows, nearest
    first, [k] of them or fewer only for a smaller corpus. *)
Definition article_distance (env : Env) (q : string) (a : Article) : Z :=
  sqdist (encode env q) (encode env (embed_text a)).

Definition dummy_article : Article :=
  {| article_id := EmptyString; art_summary := None; art_text := None |}.

Definition retrieval_as_specified (env : Env) (q : string) (k : nat)
  (res : list Article) : Prop :=
  let n := List.length (corpus env) in
  let d i := article_distance env q (nth i (corpus env) dummy_article) in
  exists rows,
    NoDup rows /\ Forall (fun i => i < n) rows /\
    res = map (fun i => nth i (corpus env) dummy_article) rows /\
    Sorted (fun i j => (d i <= d j)%Z) rows /\
    (forall i j, In i rows -> j < n -> ~ In j rows -> (d i <= d j)%Z) /\
    (List.length rows = k \/ (List.length rows < k /\ n < k)).

(** ** Facts about byte strings *)

Lemma str_app_assoc (a b c : string) : (a ++ b) ++ c = a ++ (b ++ c).
Proof. induction a as [|x a IH]; simpl; [reflexivity | now rewrite IH]. Qed.

Lemma str_app_nil (a : string) : a ++ EmptyString = a.
Proof. induction a as [|x a IH]; simpl; [reflexivity | now rewrite IH]. Qed.

Lemma prefix_length (p s : string) :
  prefix p s = true -> String.length p <= String.length s.
Proof.
  revert s; induction p as [|x p IH]; intros s H; simpl; [lia|].
  destruct s as [|y s]; simpl in H; [discriminate|].
  destruct (ascii_dec x y); [simpl; apply le_n_S, IH, H | discriminate].
Qed.

Lemma split_go_skip (sep s : string) (k : nat) (cur : string) :
  k <= String.length s -> split_go sep s k cur = split_go sep (sdrop k s) 0 cur.
Proof.
  revert k; induction s as [|c s IH]; intros k Hk.
  - simpl in Hk. assert (k = 0) by lia. now subst.
  - destruct k as [|k]; [reflexivity|].
    simpl in Hk |- *. apply IH. lia.
Qed.

Lemma split_go_cons0 (sep : string) (c : ascii) (s cur : string) :
  split_go sep (String c s) 0 cur =
  if prefix sep (String c s)
  then rev_str cur :: split_go sep s (String.length sep - 1) EmptyString
  else split_go sep s 0 (String c cur).
Proof. reflexivity. Qed.

Lemma after_first_cons (sep : string) (c : ascii) (s : string) :
  after_first sep (String c s) =
  if prefix sep (String c s) then Some (sdrop (String.length sep) (String c s))
  else after_first sep s.
Proof. reflexivity. Qed.

Lemma before_first_cons (sep : string) (c : ascii) (s : string) :
  before_first sep (String c s) =
  if prefix sep (String c s) then EmptyString else String c (before_first sep s).
Proof. reflexivity. Qed.

(** One step of [str.split]: the first piece is the text before the first
    separator, the rest splits what follows it. *)
Lemma split_go_first (sep : string) (Hsep : sep <> EmptyString) (s cur : string) :
  split_go sep s 0 cur =
  (rev_str cur ++ before_first sep s) ::
  match after_first sep s with
  | Some a => split_go sep a 0 EmptyString
  | None => []
  end.
Proof.
  revert cur; induction s as [|c s IH]; intros cur.
  - destruct sep as [|x sep]; [congruence|].
    simpl. now rewrite str_app_nil.
  - rewrite split_go_cons0, after_first_cons, before_first_cons.
    destruct (prefix sep (String c s)) eqn:Hp.
    + rewrite str_app_nil. f_equal.
      pose proof (prefix_length _ _ Hp) as Hl. simpl in Hl.
      destruct sep as [|x sep]; [congruence|]. simpl in Hl |- *.
      rewrite Nat.sub_0_r. apply split_go_skip. lia.
    + rewrite IH. simpl. now rewrite str_app_assoc.
Qed.

Lemma contains_after_first (sep s : string) :
  contains sep s = match after_first sep s with Some _ => true | None => false end.
Proof.
  induction s as [|c s IH].
  - destruct sep; reflexivity.
  - change (contains sep (String c s)) with (prefix sep (String c s) || contains sep s).
    rewrite after_first_cons.
    destruct (prefix sep (String c s)); simpl; [reflexivity | exact IH].
Qed.

Lemma py_split_idx0 (sep s : string) :
  sep <> EmptyString -> idx (py_split sep s) 0 = before_first sep s.
Proof. intro H. unfold idx, py_split. now rewrite split_go_first. Qed.

Lemma py_split_idx1 (sep s a : string) :
  sep <> EmptyString -> after_first sep s = Some a ->
  idx (py_split sep s) 1 = before_first sep a.
Proof.
  intros H Ha. unfold idx, py_split. rewrite split_go_first by exact H.
  rewrite Ha. simpl. now rewrite split_go_first.
Qed.

Lemma cat_all_app (l1 l2 : list string) : cat_all (l1 ++ l2)%list = cat_all l1 ++ cat_all l2.
Proof. induction l1 as [|x l1 IH]; simpl; [reflexivity | now rewrite IH, str_app_assoc]. Qed.

Lemma article_text_of_cat (acc : string) (arts : list Article) :
  article_text_of acc arts = acc ++ cat_all (map article_block arts).
Proof.
  revert acc; induction arts as [|a arts IH]; intro acc; simpl.
  - now rewrite str_app_nil.
  - now rewrite IH, str_app_assoc.
Qed.

(** What [screen_scenario] answers is the parse of some text. *)
Lemma screen_ok_inv (env : Env) (g : Globals) (s : string) (resp : ScreenResponse) :
  fst (fst (screen_scenario env g s)) = Ok resp -> exists t, resp = screen_parse t.
Proof.
  unfold screen_scenario. destruct (init_ai env g) as [[e|] g1]; simpl; [discriminate|].
  destruct (search_relevant_articles env g1 s 5) as [arts|]; simpl; [|discriminate].
  destruct (call_gemini env g1 (build_prompt s arts)) as [t|m]; simpl; [|discriminate].
  intro H. injection H as <-. eauto.
Qed.

Lemma screen_parse_shape (t : string) :
  raw_analysis (screen_parse t) = t /\
  List.length (violations (screen_parse t)) = 1 /\
  total_violations (summary (screen_parse t)) = (if has_violation t then 1 else 0) /\
  risk_level (summary (screen_parse t)) = (if has_violation t then "High" else "Low") /\
  (has_violation t = false -> violations (screen_parse t) = [no_violation_record]) /\
  Forall (fun v => confidence v = CONFIDENCE) (violations (screen_parse t)).
Proof.
  unfold screen_parse, parse_violations.
  destruct (has_violation t); simpl; repeat split; try discriminate; auto.
Qed.

(** ** The claims *)

(** C1 (code defect).  A reply whose status line is "Violation Status: No"
    (it matches [Violation Status:\s*No] case-insensitively) comes back
    from [normalize_analysis_text] unchanged: its Explanation and next-step
    sections are not replaced, because the detection pattern asks for a
    backslash after the colon. *)
Theorem normalize_keeps_plain_no_reply :
  spec_status_no reply_plain_no = true /\
  search_from status_no_at reply_plain_no = false /\
  normalize_analysis_text reply_plain_no = reply_plain_no.
Proof. vm_compute. repeat split. Qed.

(** C6 (code defect).  A text that does not match [Violation Status:\s*No]
    is still rewritten by [normalize_analysis_text] when it has a backslash
    after "Violation Status:". *)
Theorem normalize_rewrites_backslash_status :
  spec_status_no reply_backslash_no = false /\
  normalize_analysis_text reply_backslash_no <> reply_backslash_no.
Proof.
  split; [vm_compute; reflexivity|].
  apply String.eqb_neq. vm_compute. reflexivity.
Qed.

(** C3.  [has_violation] holds exactly when "Violation Status:" occurs and
    the first line of the segment that follows its first occurrence (up to
    the next occurrence, as [split] cuts it) contains "Yes"; with no
    occurrence at all it is false. *)
Theorem has_violation_first_status_line (t : string) :
  (has_violation t = true <->
   exists a, after_first VS t = Some a /\
             contains "Yes" (before_first nl (before_first VS a)) = true) /\
  (contains VS t = false -> has_violation t = false).
Proof.
  unfold has_violation. rewrite contains_after_first.
  destruct (after_first VS t) as [a|] eqn:Ha.
  - rewrite (py_split_idx1 VS t a) by (discriminate || exact Ha).
    rewrite py_split_idx0 by discriminate. simpl.
    split; [split|discriminate].
    + intro H. exists a. auto.
    + intros [a' [Ha' H]]. congruence.
  - simpl. split; [split|reflexivity].
    + discriminate.
    + intros [a' [Ha' _]]. discriminate.
Qed.

Lemma has_violation_first_status_line_witness :
  contains VS reply_no_headers = false /\ has_violation reply_no_headers = false.
Proof.
  assert (H : contains VS reply_no_headers = false) by (vm_compute; reflexivity).
  split; [exact H|].
  exact (proj2 (has_violation_first_status_line reply_no_headers) H).
Defined.

(** C4.  Every ScreenScenario response lists exactly one record, counts
    one violation when [has_violation] holds and none otherwise, and has
    risk level "High" exactly when [has_violation] holds, "Low" otherwise. *)
Theorem screen_response_single_record (env : Env) (g : Globals) (s : string)
  (resp : ScreenResponse) :
  fst (fst (screen_scenario env g s)) = Ok resp ->
  List.length (violations resp) = 1 /\
  total_violations (summary resp) = (if has_violation (raw_analysis resp) then 1 else 0) /\
  (risk_level (summary resp) = "High" <-> has_violation (raw_analysis resp) = true) /\
  (has_violation (raw_analysis resp) = false -> risk_level (summary resp) = "Low").
Proof.
  intro H. destruct (screen_ok_inv env g s resp H) as [t ->].
  destruct (screen_parse_shape t) as [Hr [Hl [Ht [Hk _]]]].
  rewrite Hr, Hl, Ht, Hk.
  destruct (has_violation t); repeat split; auto; discriminate.
Qed.

Definition demo_response : ScreenResponse :=
  screen_parse (normalize_analysis_text reply_yes).

Lemma screen_response_single_record_witness :
  fst (fst (screen_scenario (demo_env [art10; art13; art14] reply_yes) globals0 demo_scenario))
  = Ok demo_response /\
  List.length (violations demo_response) = 1.
Proof.
  assert (H : fst (fst (screen_scenario (demo_env [art10; art13; art14] reply_yes)
                          globals0 demo_scenario)) = Ok demo_response)
    by (vm_compute; reflexivity).
  split; [exact H|].
  exact (proj1 (screen_response_single_record _ _ _ _ H)).
Defined.

(** C5.  When the normalized text reports no violation, ScreenScenario
    lists the one fixed record "No Violation" / "N/A" / "No immediate
    action required.", whatever the text says. *)
Theorem screen_no_violation_fixed_record (env : Env) (g : Globals) (s : string)
  (resp : ScreenResponse) :
  fst (fst (screen_scenario env g s)) = Ok resp ->
  has_violation (raw_analysis resp) = false ->
  violations resp = [no_violation_record] /\
  status no_violation_record = "No Violation" /\
  article no_violation_record = "N/A" /\
  guidance no_violation_record = "No immediate action required." /\
  confidence no_violation_record = CONFIDENCE.
Proof.
  intros H Hv. destruct (screen_ok_inv env g s resp H) as [t ->].
  destruct (screen_parse_shape t) as [Hr [_ [_ [_ [Hn _]]]]].
  rewrite Hr in Hv. repeat split. exact (Hn Hv).
Qed.

Definition demo_no_response : ScreenResponse :=
  screen_parse (normalize_analysis_text reply_plain_no).

Lemma screen_no_violation_fixed_record_witness :
  fst (fst (screen_scenario (demo_env [art10; art13; art14] reply_plain_no) globals0
              "A citizen paid their electricity bill on time")) = Ok demo_no_response /\
  has_violation (raw_analysis demo_no_response) = false /\
  violations demo_no_response = [no_violation_record].
Proof.
  assert (H : fst (fst (screen_scenario (demo_env [art10; art13; art14] reply_plain_no)
                          globals0 "A citizen paid their electricity bill on time"))
              = Ok demo_no_response) by (vm_compute; reflexivity).
  assert (Hv : has_violation (raw_analysis demo_no_response) = false)
    by (vm_compute; reflexivity).
  split; [exact H|]. split; [exact Hv|].
  exact (proj1 (screen_no_violation_fixed_record _ _ _ _ H Hv)).
Defined.

(** C10.  Every record of a ScreenScenario response has confidence 0.95,
    in both branches, whatever the analysis text. *)
Theorem screen_confidence_constant (env : Env) (g : Globals) (s : string)
  (resp : ScreenResponse) :
  fst (fst (screen_scenario env g s)) = Ok resp ->
  Forall (fun v => confidence v = (95 # 100)%Q) (violations resp).
Proof.
  intro H. destruct (screen_ok_inv env g s resp H) as [t ->].
  apply (screen_parse_shape t).
Qed.

Lemma screen_confidence_constant_witness :
  fst (fst (screen_scenario (demo_env [art10; art13; art14] reply_yes) globals0 demo_scenario))
  = Ok demo_response /\
  Forall (fun v => confidence v = (95 # 100)%Q) (violations demo_response).
Proof.
  assert (H : fst (fst (screen_scenario (demo_env [art10; art13; art14] reply_yes)
                          globals0 demo_scenario)) = Ok demo_response)
    by (vm_compute; reflexivity).
  split; [exact H|].
  exact (screen_confidence_constant _ _ _ _ H).
Defined.

(** C7.  [build_prompt] is a function of its two inputs alone: equal inputs
    give the same prompt, which is the fixed head, the scenario verbatim,
    the fixed middle, one block per matched article in order and the fixed
    tail; each block carries the article's id, summary and text verbatim. *)
Theorem build_prompt_pure_verbatim (s : string) (arts : list Article) :
  (forall s' arts', s' = s -> arts' = arts -> build_prompt s' arts' = build_prompt s arts) /\
  build_prompt s arts =
    PROMPT_HEAD ++ s ++ PROMPT_MID ++ cat_all (map article_block arts) ++ PROMPT_TAIL /\
  (forall art, In art arts ->
     exists pre post,
       build_prompt s arts =
       pre ++ "Article: " ++ article_id art ++ nl ++
       "Summary: " ++ get_or_empty (art_summary art) ++ nl ++
       "Full Text: " ++ get_or_empty (art_text art) ++ post).
Proof.
  assert (Hb : build_prompt s arts =
    PROMPT_HEAD ++ s ++ PROMPT_MID ++ cat_all (map article_block arts) ++ PROMPT_TAIL).
  { unfold build_prompt. rewrite article_text_of_cat. reflexivity. }
  split; [intros s' arts' -> ->; reflexivity|].
  split; [exact Hb|].
  intros art Hin. destruct (in_split art arts Hin) as [l1 [l2 ->]].
  rewrite Hb, map_app, cat_all_app. cbn [map cat_all].
  exists (PROMPT_HEAD ++ s ++ PROMPT_MID ++ cat_all (map article_block l1) ++ nl).
  exists (nl ++ "---" ++ nl ++ cat_all (map article_block l2) ++ PROMPT_TAIL).
  unfold article_block. rewrite !str_app_assoc. reflexivity.
Qed.

Lemma build_prompt_pure_verbatim_witness :
  exists pre post,
    build_prompt demo_scenario [art13; art14] =
    pre ++ "Article: " ++ article_id art14 ++ nl ++
    "Summary: " ++ get_or_empty (art_summary art14) ++ nl ++
    "Full Text: " ++ get_or_empty (art_text art14) ++ post.
Proof.
  apply (proj2 (proj2 (build_prompt_pure_verbatim demo_scenario [art13; art14]))).
  simpl. right. left. reflexivity.
Defined.

(** ** Model selection *)

Lemma first_instantiable_some (inst : string -> option string) (ps : list string) (p : string) :
  first_instantiable inst ps = Some p -> inst p = None /\ In p ps.
Proof.
  induction ps as [|q ps IH]; simpl; [discriminate|].
  destruct (inst q) eqn:Hq.
  - intro H. destruct (IH H). auto.
  - intro H. injection H as <-. auto.
Qed.

Lemma first_instantiable_none (inst : string -> option string) (ps : list string) :
  first_instantiable inst ps = None -> forall p, In p ps -> inst p <> None.
Proof.
  induction ps as [|q ps IH]; simpl; [tauto|].
  destruct (inst q) eqn:Hq; [|discriminate].
  intros H p [<- | Hin]; [congruence | exact (IH H p Hin)].
Qed.

Lemma existsb_eqb_In (p : string) (l : list string) :
  existsb (String.eqb p) l = true <-> In p l.
Proof.
  rewrite existsb_exists. split.
  - intros [x [Hx He]]. apply String.eqb_eq in He. now subst.
  - intro H. exists p. split; [exact H | apply String.eqb_refl].
Qed.

Lemma available_In (ms : list ModelEntry) (n : string) :
  In n (available ms) <->
  exists m, In m ms /\ m_name m = Some n /\ n <> EmptyString /\ supports_generate m = true.
Proof.
  unfold available. rewrite in_flat_map. split.
  - intros [m [Hm Hn]].
    destruct (m_name m) as [n'|] eqn:Hname; [|destruct Hn].
    destruct (negb (String.eqb n' EmptyString) && supports_generate m) eqn:Hc;
      [|destruct Hn].
    destruct Hn as [<- | []].
    apply andb_true_iff in Hc as [Hne Hs]. apply negb_true_iff, String.eqb_neq in Hne.
    exists m. auto.
  - intros [m [Hm [Hname [Hne Hs]]]]. exists m. split; [exact Hm|].
    rewrite Hname. apply String.eqb_neq in Hne. rewrite Hne, Hs. simpl. auto.
Qed.

Lemma fallback_list (ms : list ModelEntry) :
  fallback (LList ms) =
  match available ms with
  | [] => None
  | n0 :: r => match find (fun p => existsb (String.eqb p) (n0 :: r)) preferred with
               | Some p => Some p
               | None => Some n0
               end
  end.
Proof. unfold fallback, listed. destruct (available ms); reflexivity. Qed.

(** C9 (claim as worded).  On a provider where every name fails to
    instantiate but the listing offers "models/gemini-pro" with
    [generateContent], the specification's policy selects that model, yet
    initialization raises: the selected preferred model is instantiated
    again at the end and fails again. *)
Theorem init_raises_although_listing_selects :
  claimed_selection env_listing_preferred = Some "models/gemini-pro" /\
  fst (init_ai env_listing_preferred globals0) = Some "404 models/gemini-pro is not found".
Proof. vm_compute. split; reflexivity. Qed.

(** C9 (as amended).  Initialization first reads the corpus file and
    loads the encoder, and raises when either fails or when the corpus is
    empty.  Past that, it binds the first preferred identifier
    that instantiates.  Otherwise, for a listing that is a list (or a dict
    whose "models" entry is a list), it keeps the named models whose labels
    name a capability; with none kept it raises "No suitable generative
    model"; with a preferred identifier among them it raises (that
    identifier already failed); else it binds the first kept model if that
    one instantiates and raises otherwise.  A listing call that raises
    makes initialization raise. *)
Theorem init_ai_model_selection (env : Env) :
  (forall e, corpus_error env = Some e -> fst (init_ai env globals0) = Some e) /\
  (forall e, corpus_error env = None -> encoder_error env = Some e ->
     fst (init_ai env globals0) = Some e) /\
  (corpus_error env = None -> encoder_error env = None -> corpus env = [] ->
     fst (init_ai env globals0) = Some TUPLE_INDEX_ERROR) /\
  (corpus_error env = None -> encoder_error env = None -> corpus env <> [] ->
     fst (init_ai env globals0) =
       match bind_model env with inl e => Some e | inr _ => None end /\
     (forall n, bind_model env = inr n -> gemini (snd (init_ai env globals0)) = Some n)) /\
  (forall p, first_instantiable (instantiate env) preferred = Some p ->
     bind_model env = inr p) /\
  (first_instantiable (instantiate env) preferred = None ->
     (forall msg, list_models env = LRaise msg -> bind_model env = inl NO_MODEL_MSG) /\
     (forall ms, list_models env = LList ms \/ list_models env = LDict (Some ms) ->
        (forall n, In n (available ms) <->
           exists m, In m ms /\ m_name m = Some n /\ n <> EmptyString /\
                     supports_generate m = true) /\
        (available ms = [] -> bind_model env = inl NO_MODEL_MSG) /\
        ((exists p, In p preferred /\ In p (available ms)) ->
           exists e, bind_model env = inl e) /\
        (forall n rest, available ms = n :: rest ->
           (forall p, In p preferred -> ~ In p (available ms)) ->
           bind_model env = match instantiate env n with
                            | None => inr n
                            | Some e => inl e
                            end))).
Proof.
  split; [intros e He; unfold init_ai; simpl; now rewrite He|].
  split; [intros e Hc He; unfold init_ai; simpl; now rewrite Hc, He|].
  split; [intros Hc He Hn; unfold init_ai; simpl; now rewrite Hc, He, Hn|].
  split.
  { intros Hc He Hn. unfold init_ai. simpl. rewrite Hc, He.
    destruct (corpus env) as [|a l]; [congruence|].
    split; [destruct (bind_model env); reflexivity|].
    intros n Hb. now rewrite Hb. }
  split.
  { intros p Hp. unfold bind_model, model_name. rewrite Hp.
    now rewrite (proj1 (first_instantiable_some _ _ _ Hp)). }
  intro Hnone.
  assert (Hfb : forall ms, list_models env = LList ms \/ list_models env = LDict (Some ms) ->
                  model_name env = fallback (LList ms)).
  { intros ms [Hl|Hl]; unfold model_name; rewrite Hnone, Hl; reflexivity. }
  split.
  { intros msg Hl. unfold bind_model, model_name. now rewrite Hnone, Hl. }
  intros ms Hms. specialize (Hfb ms Hms).
  split; [intro n; apply available_In|].
  split.
  { intro He. unfold bind_model. rewrite Hfb, fallback_list, He. reflexivity. }
  split.
  { intros [p [Hp Hav]]. unfold bind_model. rewrite Hfb, fallback_list.
    destruct (available ms) as [|n0 rest] eqn:Hav0; [destruct Hav|].
    destruct (find (fun p => existsb (String.eqb p) (n0 :: rest)) preferred) as [q|] eqn:Hf.
    - destruct (find_some _ _ Hf) as [Hq _].
      destruct (instantiate env q) as [e|] eqn:Hi; [exists e; reflexivity|].
      exfalso. exact (first_instantiable_none _ _ Hnone q Hq Hi).
    - exfalso. pose proof (find_none _ _ Hf p Hp) as Hx. cbv beta in Hx.
      apply existsb_eqb_In in Hav. congruence. }
  intros n rest Hav Hnp. unfold bind_model. rewrite Hfb, fallback_list, Hav.
  destruct (find (fun p => existsb (String.eqb p) (n :: rest)) preferred) as [q|] eqn:Hf.
  - exfalso. destruct (find_some _ _ Hf) as [Hq Hx].
    apply existsb_eqb_In in Hx. rewrite <- Hav in Hx. exact (Hnp q Hq Hx).
  - reflexivity.
Qed.

Lemma init_ai_model_selection_witness :
  corpus_error env_listing_other = None /\ encoder_error env_listing_other = None /\
  corpus env_listing_other <> [] /\
  fst (init_ai env_listing_other globals0) = None /\
  first_instantiable (instantiate env_listing_other) preferred = None /\
  available [{| m_name := Some EmptyString;
                m_sgm := CapList ["generateContent"]; m_sm := CapNone |};
             {| m_name := Some "models/gemini-2.0-flash";
                m_sgm := CapNone; m_sm := CapOne "GenerateContent" |}]
    = ["models/gemini-2.0-flash"] /\
  bind_model env_listing_other = inr "models/gemini-2.0-flash".
Proof.
  assert (H0 : first_instantiable (instantiate env_listing_other) preferred = None)
    by (vm_compute; reflexivity).
  assert (Ha : available [{| m_name := Some EmptyString;
                             m_sgm := CapList ["generateContent"]; m_sm := CapNone |};
                          {| m_name := Some "models/gemini-2.0-flash";
                             m_sgm := CapNone; m_sm := CapOne "GenerateContent" |}]
               = ["models/gemini-2.0-flash"]) by (vm_compute; reflexivity).
  assert (Hc : corpus_error env_listing_other = None) by reflexivity.
  assert (He : encoder_error env_listing_other = None) by reflexivity.
  assert (Hn : corpus env_listing_other <> []) by discriminate.
  assert (Hb : bind_model env_listing_other = inr "models/gemini-2.0-flash")
    by (vm_compute; reflexivity).
  split; [exact Hc|]. split; [exact He|]. split; [exact Hn|].
  split.
  { destruct (init_ai_model_selection env_listing_other) as [_ [_ [_ [Hok _]]]].
    rewrite (proj1 (Hok Hc He Hn)), Hb. reflexivity. }
  split; [exact H0|]. split; [exact Ha|].
  destruct (init_ai_model_selection env_listing_other) as [_ [_ [_ [_ [_ Hfb]]]]].
  destruct (Hfb H0) as [_ Hls].
  destruct (Hls _ (or_introl eq_refl)) as [_ [_ [_ Hlast]]].
  rewrite (Hlast "models/gemini-2.0-flash" [] Ha).
  - reflexivity.
  - intros p Hp. rewrite Ha. simpl in Hp |- *.
    intros [Heq|[]]. subst. vm_compute in Hp. intuition discriminate.
Defined.

(** ** The ranking of [faiss_search] *)

Section Ranking.

Variable d : nat -> Z.

Definition ranked (i j : nat) : Prop := rank_le d i j = true.

Lemma rank_le_total (i j : nat) : rank_le d i j = false -> rank_le d j i = true.
Proof.
  unfold rank_le. intro H. apply orb_false_iff in H as [H1 H2].
  apply Z.ltb_ge in H1. apply orb_true_iff.
  destruct (Z.eq_dec (d i) (d j)) as [He|Hne].
  - right. rewrite He, Z.eqb_refl in H2 |- *. simpl in H2 |- *.
    apply Nat.leb_gt in H2. apply Nat.leb_le. lia.
  - left. apply Z.ltb_lt. lia.
Qed.

Lemma rank_le_trans (i j l : nat) : ranked i j -> ranked j l -> ranked i l.
Proof.
  unfold ranked, rank_le. rewrite !orb_true_iff, !andb_true_iff, !Z.ltb_lt, !Z.eqb_eq,
    !Nat.leb_le. lia.
Qed.

Lemma rank_le_dist (i j : nat) : ranked i j -> (d i <= d j)%Z.
Proof.
  unfold ranked, rank_le. rewrite orb_true_iff, andb_true_iff, Z.ltb_lt, Z.eqb_eq. lia.
Qed.

Lemma insert_by_perm (i : nat) (l : list nat) : Permutation (i :: l) (insert_by d i l).
Proof.
  induction l as [|j l IH]; simpl; [reflexivity|].
  destruct (rank_le d i j); [reflexivity|].
  etransitivity; [apply perm_swap|]. now apply perm_skip.
Qed.

Lemma sort_by_perm (l : list nat) : Permutation l (sort_by d l).
Proof.
  induction l as [|i l IH]; simpl; [reflexivity|].
  etransitivity; [apply perm_skip, IH | apply insert_by_perm].
Qed.

Lemma insert_by_hd (i j : nat) (l : list nat) :
  ranked j i -> HdRel ranked j l -> HdRel ranked j (insert_by d i l).
Proof.
  intros Hji Hl. destruct l as [|x l]; simpl.
  - now constructor.
  - destruct (rank_le d i x); constructor; [exact Hji|].
    now inversion Hl.
Qed.

Lemma insert_by_sorted (i : nat) (l : list nat) :
  Sorted ranked l -> Sorted ranked (insert_by d i l).
Proof.
  induction l as [|j l IH]; intro Hs; simpl.
  - repeat constructor.
  - destruct (rank_le d i j) eqn:Hij.
    + constructor; [exact Hs | now constructor].
    + apply Sorted_inv in Hs as [Hs Hhd]. constructor; [now apply IH|].
      apply insert_by_hd; [apply rank_le_total, Hij | exact Hhd].
Qed.

Lemma sort_by_sorted (l : list nat) : StronglySorted ranked (sort_by d l).
Proof.
  apply Sorted_StronglySorted; [intros x y z; apply rank_le_trans|].
  induction l as [|i l IH]; simpl; [constructor | now apply insert_by_sorted].
Qed.

End Ranking.

Lemma StronglySorted_app_inv {A : Type} (R : A -> A -> Prop) (l1 l2 : list A) :
  StronglySorted R (l1 ++ l2) ->
  StronglySorted R l1 /\ (forall x y, In x l1 -> In y l2 -> R x y).
Proof.
  induction l1 as [|a l1 IH]; simpl; intro H.
  - split; [constructor | tauto].
  - apply StronglySorted_inv in H as [H Hf]. destruct (IH H) as [H1 Hx].
    rewrite Forall_forall in Hf. split.
    + constructor; [exact H1|]. apply Forall_forall. intros y Hy. apply Hf, in_or_app. auto.
    + intros x y [<- | Hx'] Hy; [apply Hf, in_or_app; auto | auto].
Qed.

Lemma StronglySorted_weaken {A : Type} (R R' : A -> A -> Prop) (l : list A) :
  (forall x y, R x y -> R' x y) -> StronglySorted R l -> Sorted R' l.
Proof.
  intros Himp. induction l as [|a l IH]; intro H; [constructor|].
  apply StronglySorted_inv in H as [H Hf]. constructor; [now apply IH|].
  destruct l as [|b l]; constructor. apply Himp. now inversion Hf.
Qed.

Lemma insert_by_ext (d d' : nat -> Z) (i : nat) (l : list nat) :
  (forall x, In x (i :: l) -> d x = d' x) -> insert_by d i l = insert_by d' i l.
Proof.
  induction l as [|j l IH]; intro H; simpl; [reflexivity|].
  unfold rank_le. rewrite (H i), (H j) by (simpl; auto).
  destruct (_ || _); [reflexivity|].
  f_equal. apply IH. intros x [<- | Hx]; apply H; simpl; auto.
Qed.

Lemma sort_by_ext (d d' : nat -> Z) (l : list nat) :
  (forall x, In x l -> d x = d' x) -> sort_by d l = sort_by d' l.
Proof.
  induction l as [|i l IH]; intro H; simpl; [reflexivity|].
  rewrite IH by (intros x Hx; apply H; simpl; auto).
  apply insert_by_ext. intros x Hx.
  apply Permutation_in with (l' := i :: l) in Hx.
  - now apply H.
  - apply perm_skip. symmetry. apply sort_by_perm.
Qed.

Lemma map_opt_py_index {A : Type} (xs : list A) (dflt : A) (rows : list nat) :
  Forall (fun i => i < List.length xs) rows ->
  map_opt (py_index xs) (map Z.of_nat rows) = Some (map (fun i => nth i xs dflt) rows).
Proof.
  induction rows as [|i rows IH]; intro H; simpl; [reflexivity|].
  apply Forall_cons_iff in H as [Hi H].
  unfold py_index at 1. replace (Z.leb 0 (Z.of_nat i)) with true by (symmetry; apply Z.leb_le; lia).
  rewrite Nat2Z.id, (nth_error_nth' xs dflt Hi), IH by exact H. reflexivity.
Qed.

(** ** Retrieval *)

Lemma py_index_last {A : Type} (xs : list A) (dflt : A) :
  xs <> [] -> py_index xs (-1)%Z = Some (last xs dflt).
Proof.
  intro Hne. unfold py_index. simpl.
  destruct xs as [|x xs] using rev_ind; [congruence|].
  rewrite length_app. simpl.
  replace (Z.leb 0 (Z.of_nat (List.length xs + 1) + -1)) with true by (symmetry; apply Z.leb_le; lia).
  replace (Z.to_nat (Z.of_nat (List.length xs + 1) + -1)) with (List.length xs) by lia.
  rewrite nth_error_app2, Nat.sub_diag by lia. simpl. now rewrite last_last.
Qed.

Lemma map_opt_app {A B : Type} (f : A -> option B) (l1 l2 : list A) (r1 r2 : list B) :
  map_opt f l1 = Some r1 -> map_opt f l2 = Some r2 -> map_opt f (l1 ++ l2)%list = Some (r1 ++ r2)%list.
Proof.
  revert r1; induction l1 as [|x l1 IH]; intros r1 H1 H2; simpl in H1 |- *.
  - injection H1 as <-. exact H2.
  - destruct (f x) as [y|]; [|discriminate].
    destruct (map_opt f l1) as [ys|]; [|discriminate].
    injection H1 as <-. now rewrite (IH ys eq_refl H2).
Qed.

Lemma map_opt_repeat {A B : Type} (f : A -> option B) (x : A) (y : B) (n : nat) :
  f x = Some y -> map_opt f (repeat x n) = Some (repeat y n).
Proof. intro H. induction n as [|n IH]; simpl; [reflexivity|]. now rewrite H, IH. Qed.

Lemma map_opt_firstn {A B : Type} (f : A -> option B) (l : list A) (r : list B) (n : nat) :
  map_opt f l = Some r -> map_opt f (firstn n l) = Some (firstn n r).
Proof.
  revert r n; induction l as [|x l IH]; intros r n H; simpl in H.
  - injection H as <-. now rewrite !firstn_nil.
  - destruct (f x) as [y|] eqn:Hx; [|discriminate].
    destruct (map_opt f l) as [ys|] eqn:Hl; [|discriminate].
    injection H as <-. destruct n as [|n]; [reflexivity|].
    simpl. now rewrite Hx, (IH ys n eq_refl).
Qed.

Lemma firstn_repeat_min {A : Type} (x : A) (n m : nat) :
  firstn n (repeat x m) = repeat x (Nat.min n m).
Proof.
  revert m; induction n as [|n IH]; intro m; [reflexivity|].
  destruct m as [|m]; [reflexivity|]. simpl. now rewrite IH.
Qed.

(** The FAISS labels, spelled out: [k] nearest rows (ties by row id), then
    the padding. *)
Lemma faiss_search_rows (db : list (list Z)) (q : list Z) (k : nat) :
  1 <= k ->
  let d i := sqdist q (nth i db []) in
  let order := sort_by d (seq 0 (List.length db)) in
  faiss_search db q k =
    Some (map Z.of_nat (firstn k order) ++ repeat (-1)%Z (k - List.length db))%list /\
  Permutation (seq 0 (List.length db)) order /\ StronglySorted (ranked d) order.
Proof.
  intros Hk d order. split; [|split].
  - destruct k as [|k]; [lia|]. reflexivity.
  - apply sort_by_perm.
  - apply sort_by_sorted.
Qed.

Lemma StronglySorted_strict (d : nat -> Z) (l : list nat) :
  StronglySorted (ranked d) l -> NoDup l ->
  StronglySorted (fun i j => (d i < d j)%Z \/ (d i = d j /\ i < j)) l.
Proof.
  induction l as [|a l IH]; intros Hs Hnd; [constructor|].
  apply StronglySorted_inv in Hs as [Hs Hf]. inversion Hnd as [|x y Hna Hnd']; subst.
  constructor; [now apply IH|].
  rewrite Forall_forall in Hf |- *. intros b Hb. specialize (Hf b Hb).
  unfold ranked, rank_le in Hf.
  rewrite orb_true_iff, andb_true_iff, Z.ltb_lt, Z.eqb_eq, Nat.leb_le in Hf.
  assert (a <> b) by (intro; subst; contradiction). lia.
Qed.

Lemma init_ai_holders (env : Env) (g : Globals) :
  embed_model g = false -> corpus_error env = None -> encoder_error env = None ->
  corpus env <> [] ->
  index (snd (init_ai env g)) = Some (map (encode env) (map embed_text (corpus env))) /\
  articles (snd (init_ai env g)) = corpus env.
Proof.
  intros Hm Hc He Hn. unfold init_ai. rewrite Hm, Hc, He.
  destruct (corpus env) as [|a l] eqn:Hl; [congruence|].
  destruct (bind_model env); split; reflexivity.
Qed.

(** The FAISS distance of row [i] is the distance to article [i]. *)
Lemma faiss_dist_article (env : Env) (q : string) (i : nat) :
  i < List.length (corpus env) ->
  sqdist (encode env q) (nth i (map (encode env) (map embed_text (corpus env))) [])
  = article_distance env q (nth i (corpus env) dummy_article).
Proof.
  intro Hi. unfold article_distance. f_equal.
  rewrite nth_indep with (d' := encode env (embed_text dummy_article))
    by (rewrite !length_map; lia).
  rewrite !map_nth. reflexivity.
Qed.

(** Retrieval after loading a non-empty corpus: the [k] nearest rows
    (ties by row), then [articles[-1]] for each padding label. *)
Lemma search_after_init (env : Env) (g : Globals) (q : string) (k : nat) :
  embed_model g = false -> corpus_error env = None -> encoder_error env = None ->
  corpus env <> [] -> 1 <= k ->
  let n := List.length (corpus env) in
  let D i := article_distance env q (nth i (corpus env) dummy_article) in
  search_relevant_articles env (snd (init_ai env g)) q k =
    Some (map (fun i => nth i (corpus env) dummy_article) (firstn k (sort_by D (seq 0 n)))
          ++ repeat (last (corpus env) dummy_article) (k - n))%list.
Proof.
  intros Hm Hc He Hne Hk n D.
  destruct (init_ai_holders env g Hm Hc He Hne) as [Hidx Hart].
  unfold search_relevant_articles. rewrite Hidx, Hart.
  destruct k as [|k']; [lia|]. cbv beta iota zeta delta [faiss_search].
  rewrite !length_map. fold n.
  rewrite (sort_by_ext _ D).
  - apply map_opt_app.
    + apply map_opt_py_index. apply Forall_forall. intros i Hi.
      assert (Ho : In i (sort_by D (seq 0 n)))
        by (rewrite <- (firstn_skipn (S k') (sort_by D (seq 0 n))); apply in_or_app; auto).
      clear Hi. rename Ho into Hi.
      apply (Permutation_in _ (Permutation_sym (sort_by_perm D (seq 0 n)))), in_seq in Hi.
      lia.
    + apply map_opt_repeat. apply py_index_last. exact Hne.
  - intros x Hx. apply in_seq in Hx. apply faiss_dist_article. lia.
Qed.

(** C2 (claim as worded).  With a one-article corpus and [k = 3] retrieval
    returns that article three times: FAISS pads with label [-1] and
    [articles[-1]] is the last article.  The result is not a list of
    distinct corpus articles of length [k] or, for the small corpus, fewer. *)
Theorem retrieval_pads_small_corpus :
  search_relevant_articles (demo_env [art13] EmptyString)
    (snd (init_ai (demo_env [art13] EmptyString) globals0)) demo_scenario 3
  = Some [art13; art13; art13] /\
  ~ retrieval_as_specified (demo_env [art13] EmptyString) demo_scenario 3
      [art13; art13; art13].
Proof.
  split; [vm_compute; reflexivity|].
  intros [rows [Hnd [Hlt [Hres _]]]]. simpl in Hlt.
  apply (f_equal (@List.length Article)) in Hres. rewrite length_map in Hres.
  simpl in Hres.
  destruct rows as [|a [|b rows]]; simpl in Hres; try discriminate.
  inversion Hlt as [|x l Ha Hl']; subst. inversion Hl' as [|y l Hb _]; subst.
  assert (a = 0) by lia. assert (b = 0) by lia. subst.
  inversion Hnd as [|x l Hnin _]. apply Hnin. simpl. auto.
Qed.

(** C2 (as amended).  Once the corpus file and the encoder have loaded
    and the corpus is non-empty, retrieval with any [k >= 1] returns exactly
    [k] records.  For [k <= n] (n the corpus size) these are [k] distinct
    corpus rows, ordered nearest-to-farthest by squared Euclidean distance
    between the embeddings, every other row being at least as far as each
    of them.  Analyze retrieves with [k = 3] and ScreenScenario with
    [k = 5]. *)
Theorem retrieval_nearest_first (env : Env) (q : string) (k : nat) :
  corpus_error env = None -> encoder_error env = None -> corpus env <> [] -> 1 <= k ->
  (exists res,
     search_relevant_articles env (snd (init_ai env globals0)) q k = Some res /\
     List.length res = k /\
     (k <= List.length (corpus env) -> retrieval_as_specified env q k res)) /\
  (forall p, In p (snd (fst (analyze env globals0 q))) ->
     exists arts, search_relevant_articles env (snd (init_ai env globals0)) q 3 = Some arts /\
                  p = build_prompt q arts) /\
  (forall p, In p (snd (fst (screen_scenario env globals0 q))) ->
     exists arts, search_relevant_articles env (snd (init_ai env globals0)) q 5 = Some arts /\
                  p = build_prompt q arts).
Proof.
  intros Hc He Hne Hk. split; [|split].
  2: { unfold analyze. destruct (init_ai env globals0) as [[e|] g1]; simpl; [tauto|].
       destruct (search_relevant_articles env g1 q 3) as [arts|]; simpl; [|tauto].
       intros p Hp. exists arts. split; [reflexivity|].
       destruct (call_gemini env g1 (build_prompt q arts)); simpl in Hp;
         destruct Hp as [<-|[]]; reflexivity. }
  2: { unfold screen_scenario. destruct (init_ai env globals0) as [[e|] g1]; simpl; [tauto|].
       destruct (search_relevant_articles env g1 q 5) as [arts|]; simpl; [|tauto].
       intros p Hp. exists arts. split; [reflexivity|].
       destruct (call_gemini env g1 (build_prompt q arts)); simpl in Hp;
         destruct Hp as [<-|[]]; reflexivity. }
  pose proof (search_after_init env globals0 q k eq_refl Hc He Hne Hk) as Hsearch.
  cbv zeta in Hsearch.
  set (n := List.length (corpus env)) in *.
  set (D := fun i => article_distance env q (nth i (corpus env) dummy_article)) in *.
  set (order := sort_by D (seq 0 n)) in *.
  assert (Hperm : Permutation (seq 0 n) order) by apply sort_by_perm.
  assert (Hlen : List.length order = n)
    by (rewrite <- (Permutation_length Hperm); apply length_seq).
  set (rows := firstn k order) in *.
  assert (Hsplit : (rows ++ skipn k order)%list = order) by apply firstn_skipn.
  assert (Hrows_len : List.length rows = Nat.min k n)
    by (unfold rows; rewrite length_firstn, Hlen; reflexivity).
  eexists. split; [exact Hsearch|]. split.
  { rewrite length_app, length_map, repeat_length, Hrows_len. lia. }
  intro Hkn. replace (k - n) with 0 by lia. rewrite app_nil_r.
  assert (Hin_r : forall i, In i rows -> In i order).
  { intros i Hi. rewrite <- Hsplit. apply in_or_app. auto. }
  assert (Hlt : Forall (fun i => i < n) rows).
  { apply Forall_forall. intros i Hi.
    apply Hin_r, (Permutation_in _ (Permutation_sym Hperm)), in_seq in Hi. lia. }
  assert (Hss : StronglySorted (ranked D) order) by apply sort_by_sorted.
  rewrite <- Hsplit in Hss. apply StronglySorted_app_inv in Hss as [Hss Hcross].
  exists rows. split; [|split; [exact Hlt|split; [reflexivity|split; [|split]]]].
  - apply (NoDup_app_remove_r _ (skipn k order)). rewrite Hsplit.
    apply (Permutation_NoDup Hperm), seq_NoDup.
  - apply (StronglySorted_weaken (ranked D)); [apply rank_le_dist | exact Hss].
  - intros i j Hi Hj Hnj. apply (rank_le_dist D), Hcross; [exact Hi|].
    assert (Hr : In j order) by (apply (Permutation_in _ Hperm), in_seq; lia).
    rewrite <- Hsplit in Hr. apply in_app_or in Hr as [Hr|Hr]; [contradiction | exact Hr].
  - left. rewrite Hrows_len. lia.
Qed.

Lemma retrieval_nearest_first_witness :
  corpus_error (demo_env [art10; art13] reply_yes) = None /\
  encoder_error (demo_env [art10; art13] reply_yes) = None /\
  corpus (demo_env [art10; art13] reply_yes) <> [] /\ 1 <= 3 /\
  exists res,
    search_relevant_articles (demo_env [art10; art13] reply_yes)
      (snd (init_ai (demo_env [art10; art13] reply_yes) globals0)) demo_scenario 3
    = Some res /\ List.length res = 3.
Proof.
  assert (Hc : corpus_error (demo_env [art10; art13] reply_yes) = None) by reflexivity.
  assert (He : encoder_error (demo_env [art10; art13] reply_yes) = None) by reflexivity.
  assert (Hne : corpus (demo_env [art10; art13] reply_yes) <> []) by (simpl; discriminate).
  assert (Hk : 1 <= 3) by lia.
  split; [exact Hc|]. split; [exact He|]. split; [exact Hne|]. split; [exact Hk|].
  destruct (proj1 (retrieval_nearest_first (demo_env [art10; art13] reply_yes)
                     demo_scenario 3 Hc He Hne Hk)) as [res [H1 [H2 _]]].
  exists res. split; [exact H1 | exact H2].
Defined.

(** ** Errors of the model call and malformed replies *)

(** C8 (claim as worded).  A reply with none of the expected headers does
    not give a record with empty-string fields: it has no
    "Violation Status:" line, so ScreenScenario answers the fixed
    "No Violation" record, whose fields are all non-empty. *)
Theorem reply_without_headers_gives_fixed_record :
  fst (fst (screen_scenario (demo_env [art10; art13; art14] reply_no_headers) globals0
              demo_scenario)) = Ok (screen_parse reply_no_headers) /\
  violations (screen_parse reply_no_headers) = [no_violation_record] /\
  article no_violation_record <> EmptyString /\
  explanation no_violation_record <> EmptyString /\
  guidance no_violation_record <> EmptyString.
Proof. vm_compute. repeat split; discriminate. Qed.

(** C8 (as amended).  Once initialization and retrieval have succeeded,
    either endpoint calls the model exactly once.  A failed call (also with
    no model bound) makes the request fail with HTTP 500 carrying the
    error message and no result.  A reply that is present never gives an
    error: Analyze returns it, ScreenScenario returns the parse of the
    normalized reply, in which, when a violation is reported, each section
    whose header is absent is the empty string, and otherwise the record is
    the fixed "No Violation" one. *)
Theorem reasoner_failure_and_malformed_reply (env : Env) (g : Globals) (s : string) :
  fst (init_ai env g) = None ->
  let g1 := snd (init_ai env g) in
  (forall arts, search_relevant_articles env g1 s 3 = Some arts ->
     let p := build_prompt s arts in
     snd (fst (analyze env g s)) = [p] /\
     (forall m, call_gemini env g1 p = GenError m ->
        fst (fst (analyze env g s)) = HttpError 500%Z m) /\
     (forall t, call_gemini env g1 p = GenText t -> fst (fst (analyze env g s)) = Ok t)) /\
  (forall arts, search_relevant_articles env g1 s 5 = Some arts ->
     let p := build_prompt s arts in
     snd (fst (screen_scenario env g s)) = [p] /\
     (forall m, call_gemini env g1 p = GenError m ->
        fst (fst (screen_scenario env g s)) = HttpError 500%Z m) /\
     (forall t, call_gemini env g1 p = GenText t ->
        let u := normalize_analysis_text t in
        fst (fst (screen_scenario env g s)) = Ok (screen_parse u) /\
        (has_violation u = true ->
           exists v, violations (screen_parse u) = [v] /\
             (contains VA_HDR u = false -> article v = EmptyString) /\
             (contains EXPL_HDR u = false -> explanation v = EmptyString) /\
             (contains NEXT_HDR u = false -> guidance v = EmptyString)) /\
        (has_violation u = false -> violations (screen_parse u) = [no_violation_record]))).
Proof.
  intro Hinit. cbv zeta. unfold analyze, screen_scenario.
  destruct (init_ai env g) as [err g1]. simpl in Hinit |- *. subst err.
  split; intros arts Ha; rewrite Ha.
  - split; [destruct (call_gemini env g1 (build_prompt s arts)); reflexivity|].
    split; [intros m Hm; now rewrite Hm | intros t Ht; now rewrite Ht].
  - split; [destruct (call_gemini env g1 (build_prompt s arts)); reflexivity|].
    split; [intros m Hm; now rewrite Hm|].
    intros t Ht. rewrite Ht. split; [reflexivity|].
    set (u := normalize_analysis_text t). split.
    + intro Hv. unfold screen_parse. cbn [violations]. unfold parse_violations.
      rewrite Hv. eexists. split; [reflexivity|].
      cbn [article explanation guidance].
      unfold articles_section, explanation_section, guidance_section.
      repeat split; intro Hc; now rewrite Hc.
    + exact (proj1 (proj2 (proj2 (proj2 (proj2 (screen_parse_shape u)))))).
Qed.

Lemma reasoner_failure_and_malformed_reply_witness :
  fst (init_ai (demo_env [art10; art13; art14] reply_yes) globals0) = None /\
  snd (fst (analyze (demo_env [art10; art13; art14] reply_yes) globals0 demo_scenario))
  = [build_prompt demo_scenario [art14; art13; art10]].
Proof.
  assert (H : fst (init_ai (demo_env [art10; art13; art14] reply_yes) globals0) = None)
    by (vm_compute; reflexivity).
  assert (Ha : search_relevant_articles (demo_env [art10; art13; art14] reply_yes)
                 (snd (init_ai (demo_env [art10; art13; art14] reply_yes) globals0))
                 demo_scenario 3 = Some [art14; art13; art10])
    by (vm_compute; reflexivity).
  split; [exact H|].
  exact (proj1 (proj1 (reasoner_failure_and_malformed_reply _ _ _ H) _ Ha)).
Defined.

(** ** Further facts about byte strings *)

Lemma prefix_app (u p : string) : prefix u (u ++ p) = true.
Proof.
  induction u as [|c u IH]; simpl; [destruct p; reflexivity|].
  destruct (ascii_dec c c); [exact IH | congruence].
Qed.

Lemma prefix_sdrop (u s : string) :
  prefix u s = true -> s = u ++ sdrop (String.length u) s.
Proof.
  revert s; induction u as [|c u IH]; intros s H; [reflexivity|].
  destruct s as [|d s]; simpl in H; [discriminate|].
  destruct (ascii_dec c d) as [<-|]; [|discriminate]. simpl. f_equal. now apply IH.
Qed.

Lemma contains_app_r (x a b : string) : contains x b = true -> contains x (a ++ b) = true.
Proof.
  induction a as [|c a IH]; intro H; simpl; [exact H|].
  apply orb_true_iff. right. now apply IH.
Qed.

Lemma contains_sdrop (x s : string) (n : nat) :
  contains x (sdrop n s) = true -> contains x s = true.
Proof.
  revert s; induction n as [|n IH]; intros s H; [exact H|].
  destruct s as [|c s]; simpl in H; [exact H|].
  simpl. apply orb_true_iff. right. now apply IH.
Qed.

Lemma first_unit_some (us : list string) (s r : string) :
  first_unit us s = Some r ->
  exists u, In u us /\ prefix u s = true /\ r = sdrop (String.length u) s.
Proof.
  induction us as [|u us IH]; simpl; [discriminate|].
  destruct (prefix u s) eqn:Hp.
  - intro H. injection H as <-. exists u. auto.
  - intro H. destruct (IH H) as [v [Hv Hr]]. exists v. auto.
Qed.

Lemma first_unit_none (us : list string) (s : string) :
  first_unit us s = None -> forall u, In u us -> prefix u s = false.
Proof.
  induction us as [|u us IH]; simpl; [tauto|].
  destruct (prefix u s) eqn:Hp; [discriminate|].
  intros H v [<-|Hv]; [exact Hp | exact (IH H v Hv)].
Qed.

Lemma ci_units_bsl : ci_units (ascii_of_nat 92) = [bsl; bsl].
Proof. reflexivity. Qed.

(** A case-insensitive match of a pattern ending in a backslash needs a
    backslash in the text. *)
Lemma ci_prefix_bsl (p s r : string) :
  ci_prefix (p ++ bsl) s = Some r -> contains bsl s = true.
Proof.
  revert s; induction p as [|c p IH]; intros s H.
  - unfold bsl, chr in H. cbn [append ci_prefix] in H. rewrite ci_units_bsl in H.
    cbn [first_unit] in H.
    destruct (prefix bsl s) eqn:Hp.
    + destruct s; simpl in Hp |- *; [discriminate|]. now rewrite Hp.
    + discriminate.
  - cbn [append ci_prefix] in H.
    destruct (first_unit (ci_units c) s) as [r0|] eqn:Hf; [|discriminate].
    destruct (first_unit_some _ _ _ Hf) as [u [_ [_ ->]]].
    apply (contains_sdrop _ _ (String.length u)). exact (IH _ H).
Qed.

Lemma status_no_at_bsl (s : string) : status_no_at s = true -> contains bsl s = true.
Proof.
  unfold status_no_at. destruct (ci_prefix (STATUS_HDR ++ bsl) s) as [r|] eqn:H;
    [|discriminate].
  intros _. exact (ci_prefix_bsl _ _ _ H).
Qed.

Lemma search_status_bsl (s : string) :
  search_from status_no_at s = true -> contains bsl s = true.
Proof.
  induction s as [|c s IH]; intro H.
  - simpl in H. discriminate.
  - simpl in H. apply orb_true_iff in H as [H|H].
    + exact (status_no_at_bsl _ H).
    + simpl. apply orb_true_iff. right. exact (IH H).
Qed.

Lemma rev_str_app (a b : string) : rev_str (a ++ b) = rev_str b ++ rev_str a.
Proof.
  induction a as [|c a IH]; simpl; [now rewrite str_app_nil|].
  now rewrite IH, str_app_assoc.
Qed.

Lemma rev_str_involutive (s : string) : rev_str (rev_str s) = s.
Proof. induction s as [|c s IH]; simpl; [reflexivity|]. now rewrite rev_str_app, IH. Qed.

Lemma str_length_app (a b : string) :
  String.length (a ++ b) = String.length a + String.length b.
Proof. induction a as [|c a IH]; simpl; [reflexivity | now rewrite IH]. Qed.

Lemma rev_str_length (s : string) : String.length (rev_str s) = String.length s.
Proof.
  induction s as [|c s IH]; simpl; [reflexivity|].
  rewrite str_length_app, IH. simpl. lia.
Qed.

Lemma sdrop_length (n : nat) (s : string) :
  String.length (sdrop n s) = String.length s - n.
Proof.
  revert s; induction n as [|n IH]; intro s; [simpl; lia|].
  destruct s; simpl; [reflexivity | apply IH].
Qed.

(** [lstrip_go] removes a prefix. *)
Lemma lstrip_go_suffix (us : list string) (fuel : nat) (s : string) :
  exists a, s = a ++ lstrip_go us fuel s.
Proof.
  revert s; induction fuel as [|f IH]; intro s; simpl; [exists EmptyString; reflexivity|].
  destruct (first_unit us s) as [r|] eqn:Hf; [|exists EmptyString; reflexivity].
  destruct (first_unit_some _ _ _ Hf) as [u [_ [Hp ->]]].
  destruct (IH (sdrop (String.length u) s)) as [a Ha].
  exists (u ++ a). rewrite str_app_assoc, <- Ha. now apply prefix_sdrop.
Qed.

(** With enough fuel and no empty unit, [lstrip_go] leaves no unit in front. *)
Lemma lstrip_go_done (us : list string) (fuel : nat) (s : string) :
  Forall (fun u => u <> EmptyString) us -> String.length s <= fuel ->
  first_unit us (lstrip_go us fuel s) = None.
Proof.
  intro Hne. revert s; induction fuel as [|f IH]; intros s Hl.
  - destruct s; simpl in Hl; [|lia]. simpl.
    induction us as [|u us IHu]; simpl; [reflexivity|].
    apply Forall_cons_iff in Hne as [Hu Hne].
    destruct u; [congruence|]. simpl. now apply IHu.
  - simpl. destruct (first_unit us s) as [r|] eqn:Hf; [|exact Hf].
    destruct (first_unit_some _ _ _ Hf) as [u [Hu [Hp ->]]].
    apply IH. rewrite sdrop_length.
    rewrite Forall_forall in Hne. specialize (Hne u Hu).
    destruct u; [congruence|]. simpl. lia.
Qed.

Lemma ws_units_nonempty : Forall (fun u => u <> EmptyString) ws_units.
Proof. repeat constructor; discriminate. Qed.

Lemma rev_ws_units_nonempty : Forall (fun u => u <> EmptyString) (map rev_str ws_units).
Proof. repeat constructor; discriminate. Qed.

Lemma strip_no_lead_trail (s : string) (u : string) :
  In u ws_units -> (forall p, strip s <> u ++ p) /\ (forall p, strip s <> p ++ u).
Proof.
  intro Hu. unfold strip.
  set (l := lstrip_go ws_units (String.length s) s).
  set (m := lstrip_go (map rev_str ws_units) (String.length l) (rev_str l)).
  assert (Hl : first_unit ws_units l = None)
    by (apply lstrip_go_done; [exact ws_units_nonempty | lia]).
  assert (Hm : first_unit (map rev_str ws_units) m = None)
    by (apply lstrip_go_done; [exact rev_ws_units_nonempty | rewrite rev_str_length; lia]).
  split; intros p Hs.
  - destruct (lstrip_go_suffix (map rev_str ws_units) (String.length l) (rev_str l)) as [a Ha].
    fold m in Ha. apply (f_equal rev_str) in Ha.
    rewrite rev_str_involutive, rev_str_app, Hs, str_app_assoc in Ha.
    pose proof (first_unit_none _ _ Hl u Hu) as Hf.
    rewrite Ha, prefix_app in Hf. discriminate.
  - apply (f_equal rev_str) in Hs. rewrite rev_str_involutive, rev_str_app in Hs.
    pose proof (first_unit_none _ _ Hm (rev_str u) (in_map _ _ _ Hu)) as Hf.
    rewrite Hs, prefix_app in Hf. discriminate.
Qed.

Lemma sub_next_tail (s : string) :
  contains NEXT_PAT s = true -> exists pre, sub_next s = pre ++ NEXT_REPL.
Proof.
  induction s as [|c s IH]; intro H.
  - vm_compute in H. discriminate.
  - change (prefix NEXT_PAT (String c s) || contains NEXT_PAT s = true) in H.
    change (exists pre, (if prefix NEXT_PAT (String c s) then NEXT_REPL
                         else String c (sub_next s)) = pre ++ NEXT_REPL).
    destruct (prefix NEXT_PAT (String c s)).
    + exists EmptyString. reflexivity.
    + destruct (IH H) as [pre Hp]. exists (String c pre). now rewrite Hp.
Qed.

(** ** Further facts about initialization *)

Lemma init_ai_loaded (env : Env) (g : Globals) :
  embed_model g = true -> init_ai env g = (None, g).
Proof. intro H. unfold init_ai. now rewrite H. Qed.

(** On unloaded holders, [embed_model] is bound exactly when the corpus
    file has been read and the encoder has loaded. *)
Lemma init_ai_embed_unloaded (env : Env) (g : Globals) :
  embed_model g = false ->
  embed_model (snd (init_ai env g)) =
    match corpus_error env, encoder_error env with None, None => true | _, _ => false end.
Proof.
  intro Hm. unfold init_ai. rewrite Hm.
  destruct (corpus_error env); [exact Hm|].
  destruct (encoder_error env); [reflexivity|].
  destruct (corpus env); [reflexivity|]. destruct (bind_model env); reflexivity.
Qed.

Lemma init_ai_early_error (env : Env) (g : Globals) :
  embed_model g = false ->
  fst (init_ai env g) =
    match corpus_error env, encoder_error env with
    | Some e, _ => Some e
    | None, Some e => Some e
    | None, None => fst (init_ai env g)
    end.
Proof.
  intro Hm. destruct (corpus_error env) as [e|] eqn:Hc;
    [|destruct (encoder_error env) as [e|] eqn:He; [|reflexivity]];
    unfold init_ai; rewrite Hm, Hc; [reflexivity|]. now rewrite He.
Qed.

Lemma init_ai_articles (env : Env) (g : Globals) :
  embed_model g = false -> corpus_error env = None ->
  articles (snd (init_ai env g)) = corpus env.
Proof.
  intros Hm Hc. unfold init_ai. rewrite Hm, Hc.
  destruct (encoder_error env); [reflexivity|].
  destruct (corpus env); [reflexivity|]. destruct (bind_model env); reflexivity.
Qed.

Lemma init_ai_gemini_on_error (env : Env) (g : Globals) :
  fst (init_ai env g) <> None -> gemini (snd (init_ai env g)) = gemini g.
Proof.
  unfold init_ai. destruct (embed_model g); [reflexivity|].
  destruct (corpus_error env); [reflexivity|].
  destruct (encoder_error env); [reflexivity|].
  destruct (corpus env); [reflexivity|].
  destruct (bind_model env); [reflexivity|]. simpl. congruence.
Qed.

Lemma fallback_some (l : Listing) (n : string) :
  fallback l = Some n -> In n preferred \/ In n (available (listed l)).
Proof.
  intro H.
  assert (Hg : forall av : list string,
    match av with
    | [] => None
    | n0 :: r =>
        match find (fun p => existsb (String.eqb p) (n0 :: r)) preferred with
        | Some p => Some p
        | None => Some n0
        end
    end = Some n -> In n preferred \/ In n av).
  { intros [|n0 r] Hx; [discriminate|].
    destruct (find (fun p => existsb (String.eqb p) (n0 :: r)) preferred) as [p|] eqn:Hf;
      injection Hx as <-; [left; exact (proj1 (find_some _ _ Hf)) | right; left; reflexivity]. }
  destruct l as [m|ms|o|ms]; [discriminate| | |];
    [exact (Hg (available ms) H) | exact (Hg (available (listed (LDict o))) H)
    | exact (Hg (available (listed (LIter ms))) H)].
Qed.

Lemma endpoints_holders (env : Env) (g : Globals) (s : string) :
  snd (analyze env g s) = snd (init_ai env g) /\
  snd (screen_scenario env g s) = snd (init_ai env g).
Proof.
  unfold analyze, screen_scenario. destruct (init_ai env g) as [[e|] g1]; simpl; [auto|].
  split.
  - destruct (search_relevant_articles env g1 s 3) as [arts|]; [|reflexivity].
    destruct (call_gemini env g1 (build_prompt s arts)); reflexivity.
  - destruct (search_relevant_articles env g1 s 5) as [arts|]; [|reflexivity].
    destruct (call_gemini env g1 (build_prompt s arts)); reflexivity.
Qed.

(** Initialization runs until the corpus file and the encoder have
    loaded, and then never again.  On unloaded holders a call leaves them
    unloaded exactly when opening or parsing the corpus file or loading
    the encoder fails, and it then raises that error; the next call, on an
    environment where both succeed, loads them.  Once they are marked as
    loaded (also when the call raised afterwards), every later call,
    whatever the environment, raises nothing and changes nothing.  Either
    endpoint leaves the holders exactly as [init_ai] left them: retrieval,
    the prompt and the model call never modify them. *)
Theorem init_ai_runs_once (env env' : Env) (g : Globals) (s : string) :
  embed_model g = false ->
  let g1 := snd (init_ai env g) in
  (embed_model g1 = false <-> (corpus_error env <> None \/ encoder_error env <> None)) /\
  (embed_model g1 = false ->
     exists e, fst (init_ai env g) = Some e /\
               (corpus_error env = Some e \/ encoder_error env = Some e)) /\
  (embed_model g1 = false -> corpus_error env' = None -> encoder_error env' = None ->
     embed_model (snd (init_ai env' g1)) = true) /\
  (embed_model g1 = true -> init_ai env' g1 = (None, g1)) /\
  snd (analyze env g s) = g1 /\
  snd (screen_scenario env g s) = g1.
Proof.
  intros Hm g1.
  pose proof (init_ai_embed_unloaded env g Hm) as Hl. fold g1 in Hl.
  pose proof (init_ai_early_error env g Hm) as Hf.
  split; [|split; [|split; [|split]]].
  - rewrite Hl. destruct (corpus_error env), (encoder_error env); split; intro H;
      try discriminate; try (left; discriminate); try (right; discriminate); try reflexivity.
    destruct H as [H|H]; contradiction.
  - intro H0. rewrite Hl in H0.
    destruct (corpus_error env) as [e|], (encoder_error env) as [e'|]; try discriminate.
    + exists e. auto.
    + exists e. auto.
    + exists e'. auto.
  - intros H0 Hc He. rewrite (init_ai_embed_unloaded env' g1 H0), Hc, He. reflexivity.
  - exact (init_ai_loaded env' g1).
  - exact (endpoints_holders env g s).
Qed.

Lemma init_ai_runs_once_witness :
  embed_model globals0 = false /\
  embed_model (snd (init_ai env_encoder_down globals0)) = false /\
  fst (init_ai env_encoder_down globals0) = Some "Connection error." /\
  embed_model (snd (init_ai env_listing_other (snd (init_ai env_encoder_down globals0)))) = true.
Proof.
  assert (H0 : embed_model globals0 = false) by reflexivity.
  destruct (init_ai_runs_once env_encoder_down env_listing_other globals0 demo_scenario H0)
    as [Hiff [Herr [Hretry _]]].
  assert (H1 : embed_model (snd (init_ai env_encoder_down globals0)) = false)
    by (apply Hiff; right; discriminate).
  split; [exact H0|]. split; [exact H1|].
  split; [vm_compute; reflexivity|].
  exact (Hretry H1 eq_refl eq_refl).
Defined.

(** A failed initialization after the encoder has loaded (an empty corpus
    file, or no usable model) is never retried.  If [init_ai] raises on
    holders with no model bound and leaves them marked as loaded, both
    endpoints re-raise that exception without sending a prompt; the
    holders keep the loaded corpus but no model.  From then on every
    request, even on a provider that has recovered, skips initialization
    and, once retrieval succeeds, fails with HTTP 500 and Python's
    [AttributeError] message for [None], the model never being called. *)
Theorem init_failure_is_sticky (env : Env) (g : Globals) (e : string) :
  gemini g = None -> fst (init_ai env g) = Some e ->
  embed_model (snd (init_ai env g)) = true ->
  let g1 := snd (init_ai env g) in
  (forall s, analyze env g s = (Raised e, [], g1)) /\
  (forall s, screen_scenario env g s = (Raised e, [], g1)) /\
  embed_model g1 = true /\ articles g1 = corpus env /\ gemini g1 = None /\
  (forall env' s arts, search_relevant_articles env' g1 s 3 = Some arts ->
     analyze env' g1 s =
       (HttpError 500%Z "'NoneType' object has no attribute 'generate_content'",
        [build_prompt s arts], g1)) /\
  (forall env' s arts, search_relevant_articles env' g1 s 5 = Some arts ->
     screen_scenario env' g1 s =
       (HttpError 500%Z "'NoneType' object has no attribute 'generate_content'",
        [build_prompt s arts], g1)).
Proof.
  intros Hg He Hl g1. fold g1 in Hl.
  destruct (embed_model g) eqn:Hem.
  { rewrite (init_ai_loaded env g Hem) in He. discriminate. }
  assert (Hinit : init_ai env g = (Some e, g1))
    by (unfold g1; destruct (init_ai env g); simpl in *; congruence).
  assert (Hc : corpus_error env = None).
  { pose proof (init_ai_embed_unloaded env g Hem) as H. fold g1 in H. rewrite Hl in H.
    destruct (corpus_error env); [discriminate | reflexivity]. }
  assert (Hn : gemini g1 = None).
  { unfold g1. rewrite init_ai_gemini_on_error; [exact Hg|]. rewrite He. discriminate. }
  split; [intro s; unfold analyze; now rewrite Hinit|].
  split; [intro s; unfold screen_scenario; now rewrite Hinit|].
  split; [exact Hl|]. split; [exact (init_ai_articles env g Hem Hc)|]. split; [exact Hn|].
  split; intros env' s arts Ha.
  - unfold analyze. rewrite (init_ai_loaded env' g1 Hl). cbv beta iota zeta.
    rewrite Ha. unfold call_gemini. now rewrite Hn.
  - unfold screen_scenario. rewrite (init_ai_loaded env' g1 Hl). cbv beta iota zeta.
    rewrite Ha. unfold call_gemini. now rewrite Hn.
Qed.

Lemma init_failure_is_sticky_witness :
  gemini globals0 = None /\
  fst (init_ai env_listing_preferred globals0) = Some "404 models/gemini-pro is not found" /\
  analyze env_listing_preferred globals0 demo_scenario =
    (Raised "404 models/gemini-pro is not found", [],
     snd (init_ai env_listing_preferred globals0)).
Proof.
  assert (H1 : gemini globals0 = None) by reflexivity.
  assert (H2 : fst (init_ai env_listing_preferred globals0)
               = Some "404 models/gemini-pro is not found") by (vm_compute; reflexivity).
  assert (H3 : embed_model (snd (init_ai env_listing_preferred globals0)) = true)
    by (vm_compute; reflexivity).
  split; [exact H1|]. split; [exact H2|].
  exact (proj1 (init_failure_is_sticky _ _ _ H1 H2 H3) demo_scenario).
Defined.

(** A successful initialization of unloaded holders binds a model that
    instantiated without error and that is either a preferred identifier
    or a model kept from the listing; the holders hold the corpus and one
    embedding per article, in corpus order. *)
Theorem init_binds_instantiable_model (env : Env) (g : Globals) :
  embed_model g = false -> fst (init_ai env g) = None ->
  let g1 := snd (init_ai env g) in
  embed_model g1 = true /\ articles g1 = corpus env /\
  index g1 = Some (map (encode env) (map embed_text (corpus env))) /\
  exists n, gemini g1 = Some n /\ instantiate env n = None /\
            (In n preferred \/ In n (available (listed (list_models env)))).
Proof.
  intros Hem Hok g1. unfold g1. unfold init_ai in Hok |- *. rewrite Hem in Hok |- *.
  destruct (corpus_error env); [discriminate|].
  destruct (encoder_error env); [discriminate|].
  destruct (corpus env); [discriminate|].
  destruct (bind_model env) as [e|n] eqn:Hb; [discriminate|]. simpl.
  split; [reflexivity|]. split; [reflexivity|]. split; [reflexivity|].
  exists n. split; [reflexivity|].
  unfold bind_model in Hb. destruct (model_name env) as [n'|] eqn:Hm; [|discriminate].
  destruct (instantiate env n') as [e|] eqn:Hi; [discriminate|].
  injection Hb as <-. split; [exact Hi|].
  unfold model_name in Hm.
  destruct (first_instantiable (instantiate env) preferred) as [p|] eqn:Hf.
  - injection Hm as <-. left. exact (proj2 (first_instantiable_some _ _ _ Hf)).
  - exact (fallback_some _ _ Hm).
Qed.

Lemma init_binds_instantiable_model_witness :
  embed_model globals0 = false /\
  fst (init_ai env_listing_other globals0) = None /\
  gemini (snd (init_ai env_listing_other globals0)) = Some "models/gemini-2.0-flash".
Proof.
  assert (H1 : embed_model globals0 = false) by reflexivity.
  assert (H2 : fst (init_ai env_listing_other globals0) = None) by (vm_compute; reflexivity).
  split; [exact H1|]. split; [exact H2|].
  destruct (init_binds_instantiable_model env_listing_other globals0 H1 H2)
    as [_ [_ [_ [n [Hn [Hi _]]]]]].
  rewrite Hn. f_equal. simpl in Hi.
  destruct (String.eqb n "models/gemini-2.0-flash") eqn:E; [|discriminate].
  now apply String.eqb_eq in E.
Defined.

(** ** Further facts about retrieval *)

(** With a corpus smaller than [k], retrieval after initialization returns
    [k] records and no error: every article once, nearest first (equal
    distances in corpus order), followed by [k - n] copies of the last
    corpus article, Python reading FAISS's padding label [-1] as
    [articles[-1]]. *)
Theorem retrieval_small_corpus_pads (env : Env) (g : Globals) (q : string) (k : nat) :
  embed_model g = false -> corpus_error env = None -> encoder_error env = None ->
  1 <= List.length (corpus env) < k ->
  let d i := article_distance env q (nth i (corpus env) dummy_article) in
  exists rows,
    Permutation rows (seq 0 (List.length (corpus env))) /\
    Sorted (fun i j => (d i < d j)%Z \/ (d i = d j /\ i < j)) rows /\
    search_relevant_articles env (snd (init_ai env g)) q k =
      Some (map (fun i => nth i (corpus env) dummy_article) rows ++
            repeat (last (corpus env) dummy_article) (k - List.length (corpus env)))%list.
Proof.
  intros Hem Hc He Hk d.
  assert (Hne : corpus env <> []) by (intro H; rewrite H in Hk; simpl in Hk; lia).
  pose proof (search_after_init env g q k Hem Hc He Hne ltac:(lia)) as Hs.
  cbv zeta in Hs. fold d in Hs.
  set (n := List.length (corpus env)) in *.
  set (order := sort_by d (seq 0 n)) in *.
  assert (Hlen : List.length order = n)
    by (unfold order; rewrite <- (Permutation_length (sort_by_perm d (seq 0 n)));
        apply length_seq).
  exists order. split; [apply Permutation_sym, sort_by_perm|]. split.
  { apply (StronglySorted_weaken _ _ _ (fun x y H => H)).
    apply StronglySorted_strict; [apply sort_by_sorted|].
    apply (Permutation_NoDup (sort_by_perm d (seq 0 n))), seq_NoDup. }
  rewrite Hs, firstn_all2 by lia. reflexivity.
Qed.

Lemma retrieval_small_corpus_pads_witness :
  embed_model globals0 = false /\
  corpus_error (demo_env [art10; art13] reply_yes) = None /\
  encoder_error (demo_env [art10; art13] reply_yes) = None /\
  1 <= List.length (corpus (demo_env [art10; art13] reply_yes)) < 3 /\
  exists res, search_relevant_articles (demo_env [art10; art13] reply_yes)
                (snd (init_ai (demo_env [art10; art13] reply_yes) globals0)) demo_scenario 3
              = Some (res ++ [art13])%list.
Proof.
  assert (H1 : embed_model globals0 = false) by reflexivity.
  assert (Hc : corpus_error (demo_env [art10; art13] reply_yes) = None) by reflexivity.
  assert (He : encoder_error (demo_env [art10; art13] reply_yes) = None) by reflexivity.
  assert (H2 : 1 <= List.length (corpus (demo_env [art10; art13] reply_yes)) < 3)
    by (simpl; lia).
  split; [exact H1|]. split; [exact Hc|]. split; [exact He|]. split; [exact H2|].
  destruct (retrieval_small_corpus_pads (demo_env [art10; art13] reply_yes) globals0
              demo_scenario 3 H1 Hc He H2) as [rows [_ [_ Hs]]].
  eexists. rewrite Hs. reflexivity.
Defined.

(** Retrieval with a smaller [k] returns a prefix: when retrieval with
    [k2] succeeds, retrieval with [1 <= k1 <= k2] on the same holders and
    text returns its first [k1] records.  So the three articles shown to
    Analyze are the first three of the five shown to ScreenScenario. *)
Theorem retrieval_smaller_k_prefix (env : Env) (g : Globals) (q : string) (k1 k2 : nat)
  (res : list Article) :
  1 <= k1 <= k2 -> search_relevant_articles env g q k2 = Some res ->
  search_relevant_articles env g q k1 = Some (firstn k1 res).
Proof.
  intros Hk H. unfold search_relevant_articles in H |- *.
  destruct (index g) as [db|]; [|discriminate].
  set (d := fun i => sqdist (encode env q) (nth i db [])).
  destruct (faiss_search_rows db (encode env q) k1 ltac:(lia)) as [H1 [Hperm _]].
  destruct (faiss_search_rows db (encode env q) k2 ltac:(lia)) as [H2 _].
  fold d in H1, H2, Hperm. rewrite H1. rewrite H2 in H.
  set (order := sort_by d (seq 0 (List.length db))) in *.
  assert (Hlen : List.length order = List.length db)
    by (rewrite <- (Permutation_length Hperm); apply length_seq).
  apply (map_opt_firstn _ _ _ k1) in H. rewrite <- H. f_equal.
  rewrite firstn_app, firstn_map, firstn_firstn, length_map, length_firstn,
    firstn_repeat_min, Hlen.
  replace (Nat.min k1 k2) with k1 by lia.
  replace (Nat.min (k1 - Nat.min k2 (List.length db)) (k2 - List.length db))
    with (k1 - List.length db) by lia.
  reflexivity.
Qed.

Lemma retrieval_smaller_k_prefix_witness :
  1 <= 3 <= 5 /\
  search_relevant_articles (demo_env [art10; art13; art14] reply_yes)
    (snd (init_ai (demo_env [art10; art13; art14] reply_yes) globals0)) demo_scenario 5
  = Some [art14; art13; art10; art14; art14] /\
  search_relevant_articles (demo_env [art10; art13; art14] reply_yes)
    (snd (init_ai (demo_env [art10; art13; art14] reply_yes) globals0)) demo_scenario 3
  = Some [art14; art13; art10].
Proof.
  assert (Hk : 1 <= 3 <= 5) by lia.
  assert (H5 : search_relevant_articles (demo_env [art10; art13; art14] reply_yes)
                 (snd (init_ai (demo_env [art10; art13; art14] reply_yes) globals0))
                 demo_scenario 5 = Some [art14; art13; art10; art14; art14])
    by (vm_compute; reflexivity).
  split; [exact Hk|]. split; [exact H5|].
  exact (retrieval_smaller_k_prefix _ _ _ 3 5 _ Hk H5).
Defined.

(** ** Further facts about the normalizer and the parser *)

(** [normalize_analysis_text] changes nothing in a reply without a
    backslash: its detection pattern asks for one.  So ScreenScenario
    parses such a reply exactly as the model wrote it. *)
Theorem normalize_needs_backslash (t : string) :
  contains bsl t = false ->
  normalize_analysis_text t = t /\
  (forall env g s arts, fst (init_ai env g) = None ->
     search_relevant_articles env (snd (init_ai env g)) s 5 = Some arts ->
     call_gemini env (snd (init_ai env g)) (build_prompt s arts) = GenText t ->
     fst (fst (screen_scenario env g s)) = Ok (screen_parse t)).
Proof.
  intro Hb.
  assert (Hn : normalize_analysis_text t = t).
  { unfold normalize_analysis_text.
    destruct (search_from status_no_at t) eqn:H; [|reflexivity].
    apply search_status_bsl in H. congruence. }
  split; [exact Hn|].
  intros env g s arts Hi Ha Hc. unfold screen_scenario.
  destruct (init_ai env g) as [e g1]. simpl in Hi, Ha, Hc. subst e.
  cbv beta iota zeta. rewrite Ha. cbv beta iota zeta. rewrite Hc. cbv beta iota zeta.
  now rewrite Hn.
Qed.

Lemma normalize_needs_backslash_witness :
  contains bsl reply_plain_no = false /\
  normalize_analysis_text reply_plain_no = reply_plain_no.
Proof.
  assert (H : contains bsl reply_plain_no = false) by (vm_compute; reflexivity).
  split; [exact H | exact (proj1 (normalize_needs_backslash reply_plain_no H))].
Defined.

(** Whenever the normalizer's detection fires, its output ends with the
    fixed next-steps note: the replacement text when the next-steps
    pattern is found, the appended tail otherwise.  Anything the reply
    had after that header is gone. *)
Theorem normalize_fired_ends_with_note (t : string) :
  search_from status_no_at t = true ->
  exists pre, normalize_analysis_text t = pre ++ NEXT_REPL \/
              normalize_analysis_text t = pre ++ NEXT_TAIL.
Proof.
  intro H. unfold normalize_analysis_text. rewrite H. cbv zeta.
  set (x := if search_from expl_found (sub_status_line t) then sub_expl (sub_status_line t)
            else strip (sub_status_line t) ++ EXPL_TAIL).
  destruct (contains NEXT_PAT x) eqn:Hc.
  - destruct (sub_next_tail x Hc) as [pre E]. exists pre. left. exact E.
  - exists (strip x). right. reflexivity.
Qed.

Lemma normalize_fired_ends_with_note_witness :
  search_from status_no_at (reply_backslash_no ++ nl ++ NEXT_HDR ++ bsl ++ "File a complaint.")
    = true /\
  exists pre,
    normalize_analysis_text (reply_backslash_no ++ nl ++ NEXT_HDR ++ bsl ++ "File a complaint.")
      = pre ++ NEXT_REPL \/
    normalize_analysis_text (reply_backslash_no ++ nl ++ NEXT_HDR ++ bsl ++ "File a complaint.")
      = pre ++ NEXT_TAIL.
Proof.
  assert (H : search_from status_no_at
                (reply_backslash_no ++ nl ++ NEXT_HDR ++ bsl ++ "File a complaint.") = true)
    by (vm_compute; reflexivity).
  split; [exact H | exact (normalize_fired_ends_with_note _ H)].
Defined.

(** The sections of a reported violation are cut at repeated headers:
    the article field is the text after the first "Violated Article(s):"
    up to the next "Violated Article(s):" or "Explanation:", the
    explanation the text after the first "Explanation:" up to the next
    "Explanation:" or "What the person can do next:", and the guidance the
    text after the first "What the person can do next:" up to a repeated
    occurrence of that header; each is stripped. *)
Theorem sections_cut_at_headers (t a : string) :
  (after_first VA_HDR t = Some a ->
     articles_section t = strip (before_first EXPL_HDR (before_first VA_HDR a))) /\
  (after_first EXPL_HDR t = Some a ->
     explanation_section t = strip (before_first NEXT_HDR (before_first EXPL_HDR a))) /\
  (after_first NEXT_HDR t = Some a ->
     guidance_section t = strip (before_first NEXT_HDR a)).
Proof.
  split; [|split]; intro Ha.
  - unfold articles_section. rewrite contains_after_first, Ha.
    rewrite (py_split_idx1 VA_HDR t a ltac:(discriminate) Ha).
    rewrite (py_split_idx0 EXPL_HDR _ ltac:(discriminate)). reflexivity.
  - unfold explanation_section. rewrite contains_after_first, Ha.
    rewrite (py_split_idx1 EXPL_HDR t a ltac:(discriminate) Ha).
    rewrite (py_split_idx0 NEXT_HDR _ ltac:(discriminate)). reflexivity.
  - unfold guidance_section. rewrite contains_after_first, Ha.
    rewrite (py_split_idx1 NEXT_HDR t a ltac:(discriminate) Ha). reflexivity.
Qed.

Lemma sections_cut_at_headers_witness :
  after_first NEXT_HDR reply_repeated_guidance =
    Some (sdrop (String.length (before_first NEXT_HDR reply_repeated_guidance ++ NEXT_HDR))
            reply_repeated_guidance) /\
  guidance_section reply_repeated_guidance = "File a petition under Article 17.".
Proof.
  assert (H : after_first NEXT_HDR reply_repeated_guidance =
    Some (sdrop (String.length (before_first NEXT_HDR reply_repeated_guidance ++ NEXT_HDR))
            reply_repeated_guidance)) by (vm_compute; reflexivity).
  split; [exact H|].
  rewrite (proj2 (proj2 (sections_cut_at_headers _ _)) H). vm_compute. reflexivity.
Defined.

Lemma empty_not_unit (u p : string) :
  In u ws_units -> EmptyString <> u ++ p /\ EmptyString <> p ++ u.
Proof.
  intro Hu. pose proof (proj1 (Forall_forall _ _) ws_units_nonempty u Hu) as Hne.
  split; intro E; apply (f_equal String.length) in E; rewrite str_length_app in E;
    destruct u; simpl in E; (congruence || lia).
Qed.

Lemma fixed_trimmed (s : string) :
  forallb (fun u => negb (prefix u s) && negb (prefix (rev_str u) (rev_str s))) ws_units = true ->
  forall u p, In u ws_units -> s <> u ++ p /\ s <> p ++ u.
Proof.
  intros H u p Hu. rewrite forallb_forall in H. specialize (H u Hu).
  apply andb_true_iff in H as [H1 H2]. apply negb_true_iff in H1, H2.
  split; intro E.
  - rewrite E, prefix_app in H1. discriminate.
  - rewrite E, rev_str_app, prefix_app in H2. discriminate.
Qed.

Lemma section_trimmed (b : bool) (x u p : string) :
  In u ws_units ->
  (if b then strip x else EmptyString) <> u ++ p /\
  (if b then strip x else EmptyString) <> p ++ u.
Proof.
  intro Hu. destruct b.
  - destruct (strip_no_lead_trail x u Hu) as [H1 H2]. exact (conj (H1 p) (H2 p)).
  - exact (empty_not_unit u p Hu).
Qed.

(** No field of a ScreenScenario record starts or ends with whitespace
    (any character of [str.isspace]): the sections of a reported
    violation are stripped or empty, and the fixed record's texts have no
    outer whitespace. *)
Theorem violation_fields_trimmed (t : string) (v : StructuredViolation) (u p : string) :
  In v (violations (screen_parse t)) -> In u ws_units ->
  article v <> u ++ p /\ article v <> p ++ u /\
  explanation v <> u ++ p /\ explanation v <> p ++ u /\
  guidance v <> u ++ p /\ guidance v <> p ++ u.
Proof.
  intros Hv Hu. unfold screen_parse in Hv. cbn [violations] in Hv.
  unfold parse_violations in Hv. destruct (has_violation t); destruct Hv as [<-|[]];
    cbn [article explanation guidance].
  - unfold articles_section, explanation_section, guidance_section.
    destruct (section_trimmed (contains VA_HDR t)
                (idx (py_split EXPL_HDR (idx (py_split VA_HDR t) 1)) 0) u p Hu).
    destruct (section_trimmed (contains EXPL_HDR t)
                (idx (py_split NEXT_HDR (idx (py_split EXPL_HDR t) 1)) 0) u p Hu).
    destruct (section_trimmed (contains NEXT_HDR t) (idx (py_split NEXT_HDR t) 1) u p Hu).
    tauto.
  - destruct (fixed_trimmed "N/A" ltac:(vm_compute; reflexivity) u p Hu).
    destruct (fixed_trimmed "No fundamental rights violation detected in this scenario."
                ltac:(vm_compute; reflexivity) u p Hu).
    destruct (fixed_trimmed "No immediate action required." ltac:(vm_compute; reflexivity) u p Hu).
    tauto.
Qed.

Lemma violation_fields_trimmed_witness :
  In (hd no_violation_record (violations (screen_parse reply_yes)))
     (violations (screen_parse reply_yes)) /\
  In " " ws_units /\
  guidance (hd no_violation_record (violations (screen_parse reply_yes)))
    <> "File a petition under Article 17." ++ " ".
Proof.
  assert (H1 : In (hd no_violation_record (violations (screen_parse reply_yes)))
                  (violations (screen_parse reply_yes))) by (vm_compute; left; reflexivity).
  assert (H2 : In " " ws_units) by (vm_compute; tauto).
  split; [exact H1|]. split; [exact H2|].
  exact (proj2 (proj2 (proj2 (proj2 (proj2 (violation_fields_trimmed reply_yes _ " "
                                              "File a petition under Article 17." H1 H2)))))).
Defined.
